(** * waybar-modules: the Unix socket server (sockets/server/server.py)

    A shallow embedding of [UnixSocketServer] and of the method table of
    sockets/server/methods.py, with the properties of the request
    dispatcher, the client session loop, the connection registry and the
    start-up / teardown path.

    Python values are a small inductive type, the statements of every
    method are written in a state-and-exception monad over the fields of
    the server object, and the socket operations are recorded in a trace. *)

From Stdlib Require Import Ascii String.
From stdpp Require Import gmap strings list pretty.

Set Warnings "-register-all,-clear-no-such-hyp".

Open Scope Z_scope.
Open Scope string_scope.

(* ===================================================================== *)
(** ** Python values *)
(* ===================================================================== *)

(** The values that travel through the server: what [json.loads] builds
    (None, bool, int, str, list, dict with string keys) and, for what a
    handler may return, any other object ([PObject], with the name of its
    type and its truth value): a set, bytes, an instance of a class.
    JSON numbers are restricted to integers. *)
Inductive pyval : Type :=
| PNone
| PBool (b : bool)
| PInt (n : Z)
| PStr (s : string)
| PList (l : list pyval)
| PDict (d : list (string * pyval))
| PObject (ty : string) (truth : bool).

(** [bool(v)]: the test behind [if not method] and [if request_id]. *)
Definition truthy (v : pyval) : bool :=
  match v with
  | PNone => false
  | PBool b => b
  | PInt n => negb (Z.eqb n 0)
  | PStr s => negb (String.eqb s "")
  | PList l => match l with [] => false | _ => true end
  | PDict d => match d with [] => false | _ => true end
  | PObject _ t => t
  end.

(** [type(v).__name__], as it shows up in the interpreter's messages. *)
Definition type_name (v : pyval) : string :=
  match v with
  | PNone => "NoneType"
  | PBool _ => "bool"
  | PInt _ => "int"
  | PStr _ => "str"
  | PList _ => "list"
  | PDict _ => "dict"
  | PObject ty _ => ty
  end.

Fixpoint first_some {A : Type} (l : list (option A)) : option A :=
  match l with
  | [] => None
  | Some a :: _ => Some a
  | None :: l' => first_some l'
  end.

(** The type of the first object inside [v] that [json.dumps] refuses,
    if there is one. *)
Fixpoint first_object (v : pyval) : option string :=
  match v with
  | PList l => first_some (map first_object l)
  | PDict d => first_some (map (fun kv => first_object (snd kv)) d)
  | PObject ty _ => Some ty
  | _ => None
  end.

(** What [json.loads] can build, and what [json.dumps] accepts: no
    [PObject] anywhere inside. *)
Definition json_value (v : pyval) : bool :=
  match first_object v with
  | None => true
  | Some _ => false
  end.

(** *** Dictionaries

    A Python dict keeps insertion order; assigning to an existing key
    keeps its position. *)
Fixpoint dict_get (d : list (string * pyval)) (k : string) : option pyval :=
  match d with
  | [] => None
  | (k', v) :: d' => if String.eqb k' k then Some v else dict_get d' k
  end.

Fixpoint dict_set (d : list (string * pyval)) (k : string) (v : pyval)
  : list (string * pyval) :=
  match d with
  | [] => [(k, v)]
  | (k', v') :: d' =>
      if String.eqb k' k then (k', v) :: d' else (k', v') :: dict_set d' k v
  end.

(** *** [repr] and [str] *)

Definition ascii_code (a : ascii) : N := N_of_ascii a.

Definition dquote : ascii := ascii_of_N 34.

Definition hex_digit (n : N) : ascii :=
  ascii_of_N (if N.ltb n 10 then 48 + n else 87 + n)%N.

(** One character of a string inside [repr], for the quote [q] in use. *)
Definition repr_char (q : ascii) (a : ascii) : string :=
  let n := ascii_code a in
  if Ascii.eqb a "\"%char then "\\"
  else if Ascii.eqb a q then String "\"%char (String q "")
  else if N.eqb n 10 then "\n"
  else if N.eqb n 13 then "\r"
  else if N.eqb n 9 then "\t"
  else if N.ltb n 32 || N.eqb n 127
       then String "\"%char (String "x"%char
              (String (hex_digit (n / 16)%N) (String (hex_digit (n mod 16)%N) "")))
  else String a "".

Fixpoint string_mem (a : ascii) (s : string) : bool :=
  match s with
  | EmptyString => false
  | String b s' => Ascii.eqb a b || string_mem a s'
  end.

Fixpoint string_flat_map (f : ascii -> string) (s : string) : string :=
  match s with
  | EmptyString => ""
  | String a s' => f a +:+ string_flat_map f s'
  end.

(** [repr] of a str: single quotes, unless the text has a single quote
    and no double quote. Bytes above 127 are kept, which is what [repr]
    does with the characters beyond ASCII that are printable; the
    escapes it writes for the others (U+0085, U+00A0, ...) are not
    followed. *)
Definition repr_str (s : string) : string :=
  let q : ascii :=
    if string_mem "'"%char s && negb (string_mem dquote s)
    then dquote else "'"%char in
  String q (string_flat_map (repr_char q) s) +:+ String q "".

Fixpoint join (sep : string) (l : list string) : string :=
  match l with
  | [] => ""
  | [x] => x
  | x :: l' => x +:+ sep +:+ join sep l'
  end.

Fixpoint py_repr (v : pyval) : string :=
  match v with
  | PNone => "None"
  | PBool true => "True"
  | PBool false => "False"
  | PInt n => pretty n
  | PStr s => repr_str s
  | PList l => "[" +:+ join ", " (map py_repr l) +:+ "]"
  | PDict d =>
      "{" +:+ join ", " (map (fun kv => repr_str (fst kv) +:+ ": " +:+ py_repr (snd kv)) d)
          +:+ "}"
  | PObject ty _ => "<" +:+ ty +:+ " object>"
  end.

(** [str(v)], what an f-string inserts for [{v}]. *)
Definition py_str (v : pyval) : string :=
  match v with
  | PStr s => s
  | _ => py_repr v
  end.

(* ===================================================================== *)
(** ** Exceptions and results *)
(* ===================================================================== *)

(** The exception classes the server's [except] clauses tell apart.
    [socket.timeout] is a subclass of [socket.error], which is [OSError];
    all of them are subclasses of [Exception]. Exits that are not
    [Exception]s ([SystemExit], [KeyboardInterrupt]) are not modelled. *)
Inductive exn_class : Type :=
| JSONDecodeError
| UnicodeDecodeError
| TypeError
| AttributeError
| SocketTimeout
| OSError
| OtherException.

(** An exception: its class and [str(e)]. *)
Record exn : Type := Exn { exn_cls : exn_class; exn_str : string }.

Inductive result (A : Type) : Type :=
| Ok (a : A)
| Raise (e : exn).

Arguments Ok {A} a.
Arguments Raise {A} e.

Global Instance result_ret : MRet result := fun A a => Ok a.
Global Instance result_bind : MBind result := fun A B k r =>
  match r with
  | Ok a => k a
  | Raise e => Raise e
  end.

Definition is_type_error (e : exn) : bool :=
  match exn_cls e with TypeError => true | _ => false end.

Definition is_json_decode_error (e : exn) : bool :=
  match exn_cls e with JSONDecodeError => true | _ => false end.

Definition is_socket_timeout (e : exn) : bool :=
  match exn_cls e with SocketTimeout => true | _ => false end.

(** [except socket.error]: [OSError] and its subclass [socket.timeout]. *)
Definition is_socket_error (e : exn) : bool :=
  match exn_cls e with SocketTimeout | OSError => true | _ => false end.

(* ===================================================================== *)
(** ** The method table (methods.py) *)
(* ===================================================================== *)

(** A handler is what [method_handler( *args )] evaluates to, as a
    function of the value of [args]: the value returned, or the exception
    raised (by the unpacking, by the call, or inside the handler). Each
    call returns a fresh value. *)
Abbreviation handler := (pyval -> result pyval) (only parsing).

(** [*args]: the positional arguments an iterable unpacks to; [None] when
    the value is not iterable. A str unpacks to its characters and a dict
    to its keys. *)

(** A continuation byte of UTF-8 (10xxxxxx). *)
Definition continuation (a : ascii) : bool :=
  let n := N_of_ascii a in N.leb 128 n && N.ltb n 192.

(** The characters of a str, held as UTF-8: a character is a byte with
    the continuation bytes that follow it. *)
Fixpoint code_points (s : string) : list string :=
  match s with
  | EmptyString => []
  | String a s' =>
      let rest := code_points s' in
      match s' with
      | String b _ =>
          if continuation b
          then match rest with
               | ch :: rest' => String a ch :: rest'
               | [] => [String a ""]
               end
          else String a "" :: rest
      | EmptyString => String a "" :: rest
      end
  end.

Definition chars (s : string) : list pyval := map PStr (code_points s).

Definition star_args (args : pyval) : option (list pyval) :=
  match args with
  | PList l => Some l
  | PStr s => Some (chars s)
  | PDict d => Some (map (fun kv => PStr (fst kv)) d)
  | _ => None
  end.

(** [subprocess.run(..., capture_output=True, text=True, check=True)]. *)
Inductive completed : Type :=
| Completed (stdout : string)
| CalledProcessError (returncode : Z) (stderr : string)
| RunFailed (e : exn).

Definition arity_message (fn : string) (n : nat) : string :=
  fn +:+ "() takes 0 positional arguments but " +:+ pretty n
     +:+ (if Nat.eqb n 1 then " was given" else " were given").

Definition called_process_error (returncode : Z) (stderr : string) : pyval :=
  PDict [("success", PBool false); ("exit_code", PInt returncode);
         ("error", PStr stderr)].

(** [list_updates], for the outcomes [sy] of [pacman -Sy] and [sup] of
    [pacman -Sup]. *)
Definition list_updates (sy sup : completed) : handler := fun args =>
  match star_args args with
  | None =>
      Raise (Exn TypeError
        ("methods.list_updates() argument after * must be an iterable, not "
           +:+ type_name args))
  | Some [] =>
      match sy with
      | Completed _ =>
          match sup with
          | Completed stdout =>
              Ok (PDict [("success", PBool true); ("updates", PStr stdout)])
          | CalledProcessError rc err => Ok (called_process_error rc err)
          | RunFailed e => Raise e
          end
      | CalledProcessError rc err => Ok (called_process_error rc err)
      | RunFailed e => Raise e
      end
  | Some l => Raise (Exn TypeError (arity_message "list_updates" (length l)))
  end.

Definition METHODS (sy sup : completed) : gmap string handler :=
  {[ "list_updates" := list_updates sy sup ]}.

(* ===================================================================== *)
(** ** The dispatcher: [handle_request] *)
(* ===================================================================== *)

Definition error_envelope (msg : string) : pyval :=
  PDict [("success", PBool false); ("error", PStr msg)].

(** [obj.get(k, default)]: only a dict has [get]. *)
Definition py_get (obj : pyval) (k : string) (default : pyval) : result pyval :=
  match obj with
  | PDict d => Ok (match dict_get d k with Some v => v | None => default end)
  | _ => Raise (Exn AttributeError
                  ("'" +:+ type_name obj +:+ "' object has no attribute 'get'"))
  end.

(** [table.get(method)] on a dict with str keys: a list or a dict is
    unhashable, any other value that is not a str is no key of the table. *)
Definition table_get (table : gmap string handler) (method : pyval)
  : result (option handler) :=
  match method with
  | PStr s => Ok (table !! s)
  | PList _ | PDict _ =>
      Raise (Exn TypeError ("unhashable type: '" +:+ type_name method +:+ "'"))
  | _ => Ok None
  end.

Definition no_method : pyval := error_envelope "No 'method' provided.".

Definition no_such_method (method : pyval) : pyval :=
  error_envelope ("No such method: '" +:+ py_str method +:+ "'").

Definition invalid_arguments (args method : pyval) (detail : string) : pyval :=
  error_envelope ("Invalid arguments '" +:+ py_str args +:+ "' for method '"
                    +:+ py_str method +:+ "': " +:+ detail).

Definition method_failed (method : pyval) (detail : string) : pyval :=
  error_envelope ("Method '" +:+ py_str method +:+ "' failed: " +:+ detail).

(** The fields of a request, with the defaults of [get]. *)
Definition field (d : list (string * pyval)) (k : string) (default : pyval) : pyval :=
  match dict_get d k with Some v => v | None => default end.

Section Dispatcher.

(** The module-level table [METHODS] the server imports. *)
Variable table : gmap string handler.

Definition handle_request (json_data : pyval) : result pyval :=
  method ← py_get json_data "method" PNone;
  if negb (truthy method) then Ok no_method
  else
    method_handler ← table_get table method;
    match method_handler with
    | None => Ok (no_such_method method)
    | Some h =>
        args ← py_get json_data "args" (PList []);
        match h args with
        | Ok response => Ok response
        | Raise e =>
            if is_type_error e
            then Ok (invalid_arguments args method (exn_str e))
            else Ok (method_failed method (exn_str e))
        end
    end.

End Dispatcher.

(* ===================================================================== *)
(** ** The server object and its environment *)
(* ===================================================================== *)

(** A socket handle: every [socket.socket()] and every [accept()] gives a
    new one. *)
Abbreviation sock := nat (only parsing).

(** How a connection answers [sendall]: the data is taken, the peer is
    gone ([BrokenPipeError]), or nothing can be written within the
    timeout ([socket.timeout]). *)
Inductive link_state : Type := LinkUp | LinkBroken | LinkStalled.

(** A session thread: started by the accept loop, then between the entry
    and the [finally] block of [handle_client], then done. *)
Inductive phase : Type := Started | Serving | Finished.

(** What is at [socket_path]: nothing, a file left there before this
    server started, a directory (which [os.unlink] refuses), or the
    socket file made by this server's [bind]. *)
Inductive path_state : Type := Absent | Stale | Directory | Bound.

(** The socket calls that matter to a client: each [sendall] with the
    message and whether it was written, and each [close]. A message on
    the wire is identified with the value [json.dumps] was given. *)
Inductive io_event : Type :=
| EvSend (c : sock) (msg : pyval) (written : bool)
| EvClose (c : sock).

Global Instance link_state_eq_dec : EqDecision link_state.
Proof. solve_decision. Defined.
Global Instance phase_eq_dec : EqDecision phase.
Proof. solve_decision. Defined.
Global Instance path_state_eq_dec : EqDecision path_state.
Proof. solve_decision. Defined.

(** The fields of [UnixSocketServer] that the methods use (the first
    four), and the part of the process and of the file system they act
    on. *)
Record server : Type := Server {
  running : bool;
  client_sockets : list sock;
  client_threads : list sock;
  server_socket : option sock;
  closed : gset sock;
  link : gmap sock link_state;
  threads : gmap sock phase;
  path : path_state;
  dir_writable : bool;
  trace : list io_event
}.

Definition set_running (b : bool) (s : server) : server :=
  Server b (client_sockets s) (client_threads s) (server_socket s) (closed s)
    (link s) (threads s) (path s) (dir_writable s) (trace s).

Definition set_client_sockets (l : list sock) (s : server) : server :=
  Server (running s) l (client_threads s) (server_socket s) (closed s)
    (link s) (threads s) (path s) (dir_writable s) (trace s).

Definition set_client_threads (l : list sock) (s : server) : server :=
  Server (running s) (client_sockets s) l (server_socket s) (closed s)
    (link s) (threads s) (path s) (dir_writable s) (trace s).

Definition set_server_socket (o : option sock) (s : server) : server :=
  Server (running s) (client_sockets s) (client_threads s) o (closed s)
    (link s) (threads s) (path s) (dir_writable s) (trace s).

Definition set_closed (X : gset sock) (s : server) : server :=
  Server (running s) (client_sockets s) (client_threads s) (server_socket s) X
    (link s) (threads s) (path s) (dir_writable s) (trace s).

Definition set_link (m : gmap sock link_state) (s : server) : server :=
  Server (running s) (client_sockets s) (client_threads s) (server_socket s)
    (closed s) m (threads s) (path s) (dir_writable s) (trace s).

Definition set_threads (m : gmap sock phase) (s : server) : server :=
  Server (running s) (client_sockets s) (client_threads s) (server_socket s)
    (closed s) (link s) m (path s) (dir_writable s) (trace s).

Definition set_path (p : path_state) (s : server) : server :=
  Server (running s) (client_sockets s) (client_threads s) (server_socket s)
    (closed s) (link s) (threads s) p (dir_writable s) (trace s).

Definition log (e : io_event) (s : server) : server :=
  Server (running s) (client_sockets s) (client_threads s) (server_socket s)
    (closed s) (link s) (threads s) (path s) (dir_writable s) (trace s ++ [e]).

(** [UnixSocketServer.__init__], in a process with no open connection,
    for what is at the socket path and whether its directory can be
    written. *)
Definition init (p : path_state) (w : bool) : server :=
  Server false [] [] None ∅ ∅ ∅ p w [].

Definition link_of (s : server) (c : sock) : link_state :=
  match link s !! c with Some l => l | None => LinkUp end.

(** [sendall] on [c] would be written. *)
Definition writable (c : sock) (s : server) : bool :=
  bool_decide (c ∉ closed s) && bool_decide (link_of s c = LinkUp).

(** ** Statements: state and exceptions *)

Definition M (A : Type) : Type := server -> result A * server.

Global Instance M_ret : MRet M := fun A a s => (Ok a, s).
Global Instance M_bind : MBind M := fun A B k m s =>
  match m s with
  | (Ok a, s') => k a s'
  | (Raise e, s') => (Raise e, s')
  end.

Definition get {A : Type} (f : server -> A) : M A := fun s => (Ok (f s), s).
Definition modify (f : server -> server) : M unit := fun s => (Ok tt, f s).
Definition lift {A : Type} (r : result A) : M A := fun s => (r, s).
Definition raise {A : Type} (cls : exn_class) (msg : string) : M A :=
  fun s => (Raise (Exn cls msg), s).

(** [try: body except ...]: [clauses e] is the body of the first clause
    that matches [e], [None] when no clause does. An exception raised in
    a clause is not caught by the statement. *)
Definition try_except {A : Type} (body : M A) (clauses : exn -> option (M A))
  : M A := fun s =>
  match body s with
  | (Ok a, s') => (Ok a, s')
  | (Raise e, s') =>
      match clauses e with
      | Some h => h s'
      | None => (Raise e, s')
      end
  end.

(** [try: body except: pass]. *)
Definition ignoring (body : M unit) : M unit :=
  try_except body (fun _ => Some (mret tt)).

(** [for x in l: body x]. *)
Fixpoint for_each {A : Type} (body : A -> M unit) (l : list A) : M unit :=
  match l with
  | [] => mret tt
  | x :: l' => body x;; for_each body l'
  end.

(** ** Socket and file system calls *)

Definition ebadf : exn := Exn OSError "[Errno 9] Bad file descriptor".

(** [client_socket.sendall(json.dumps(msg).encode('utf-8'))] for a value
    [msg] that [json.dumps] accepts. *)
Definition sendall (c : sock) (msg : pyval) : M unit := fun s =>
  if bool_decide (c ∈ closed s)
  then (Raise ebadf, log (EvSend c msg false) s)
  else match link_of s c with
       | LinkUp => (Ok tt, log (EvSend c msg true) s)
       | LinkBroken =>
           (Raise (Exn OSError "[Errno 32] Broken pipe"), log (EvSend c msg false) s)
       | LinkStalled =>
           (Raise (Exn SocketTimeout "timed out"), log (EvSend c msg false) s)
       end.

(** [client_socket.close()]: closing again is allowed. *)
Definition close (c : sock) : M unit := fun s =>
  (Ok tt, log (EvClose c) (set_closed ({[c]} ∪ closed s) s)).

Definition settimeout (c : sock) : M unit := fun s =>
  if bool_decide (c ∈ closed s) then (Raise ebadf, s) else (Ok tt, s).

(** [json.dumps(v)]. *)
Definition json_dumps (v : pyval) : result pyval :=
  match first_object v with
  | None => Ok v
  | Some ty =>
      Raise (Exn TypeError ("Object of type " +:+ ty +:+ " is not JSON serializable"))
  end.

(** [response[k] = v]. *)
Definition setitem (response : pyval) (k : string) (v : pyval) : result pyval :=
  match response with
  | PDict d => Ok (PDict (dict_set d k v))
  | PList _ =>
      Raise (Exn TypeError "list indices must be integers or slices, not str")
  | _ =>
      Raise (Exn TypeError
               ("'" +:+ type_name response +:+ "' object does not support item assignment"))
  end.

(** [if request_id: response["request_id"] = request_id]. *)
Definition attach (request_id response : pyval) : result pyval :=
  if truthy request_id
  then setitem response "request_id" request_id
  else Ok response.

(** The data of one [recv], by what [json.loads(data.decode('utf-8'))]
    does with it: [decode] raises [UnicodeDecodeError], [loads] raises
    [JSONDecodeError], or [loads] returns a value. *)
Inductive payload : Type :=
| NotUtf8 (detail : string)
| NotJson (detail : string)
| Json (v : pyval).

Definition loads (p : payload) : result pyval :=
  match p with
  | NotUtf8 detail => Raise (Exn UnicodeDecodeError detail)
  | NotJson detail => Raise (Exn JSONDecodeError detail)
  | Json v => Ok v
  end.

(** How one [recv(4096)] ends: the timeout of one second passes, the call
    fails, the peer has closed (empty data), or data arrives. *)
Inductive received : Type :=
| RecvTimeout
| RecvFailed (detail : string)
| RecvEmpty
| RecvData (p : payload).

(** [settimeout(1.0); recv(4096)]: [None] is the empty data. *)
Definition recv (c : sock) (r : received) : M (option payload) := fun s =>
  if bool_decide (c ∈ closed s) then (Raise ebadf, s)
  else match r with
       | RecvTimeout => (Raise (Exn SocketTimeout "timed out"), s)
       | RecvFailed detail => (Raise (Exn OSError detail), s)
       | RecvEmpty => (Ok None, s)
       | RecvData p => (Ok (Some p), s)
       end.

Definition occupied (p : path_state) : bool :=
  match p with
  | Absent => false
  | Stale | Directory | Bound => true
  end.

(** [os.path.exists(socket_path)]. *)
Definition path_exists : M bool := get (fun s => occupied (path s)).

(** [os.unlink(socket_path)], on a path that exists: a directory is
    refused, a file goes when the directory it is in can be written. *)
Definition removable (s : server) : bool :=
  dir_writable s && negb (bool_decide (path s = Directory)).

Definition unlink : M unit := fun s =>
  match path s with
  | Directory => (Raise (Exn OSError "[Errno 21] Is a directory"), s)
  | _ =>
      if dir_writable s then (Ok tt, set_path Absent s)
      else (Raise (Exn OSError "[Errno 13] Permission denied"), s)
  end.

(* ===================================================================== *)
(** ** The client session: [handle_client] *)
(* ===================================================================== *)

Definition invalid_json : pyval := error_envelope "Invalid JSON format".

Definition server_error (detail : string) : pyval :=
  error_envelope ("Server error: " +:+ detail).

Definition shutdown_notice : pyval :=
  PDict [("success", PBool false); ("error", PStr "Server shutting down");
         ("shutdown", PBool true)].

(** How one turn of a [while] loop ends: at the loop test again
    ([continue], or the end of the body), or out of the loop ([break]). *)
Inductive ctl : Type := Next | Break.

(** [l.remove(x)]: the first occurrence goes. *)
Fixpoint remove_first (x : sock) (l : list sock) : list sock :=
  match l with
  | [] => []
  | y :: l' => if bool_decide (x = y) then l' else y :: remove_first x l'
  end.

(** [with self.client_lock: self.client_sockets.append(client_socket)]. *)
Definition register (c : sock) : M unit :=
  modify (fun s => set_client_sockets (client_sockets s ++ [c]) s).

(** [with self.client_lock: if client_socket in self.client_sockets:
    self.client_sockets.remove(client_socket)]. *)
Definition unregister (c : sock) : M unit :=
  modify (fun s =>
    if bool_decide (c ∈ client_sockets s)
    then set_client_sockets (remove_first c (client_sockets s)) s
    else s).

Definition set_phase (c : sock) (p : phase) : M unit :=
  modify (fun s => set_threads (<[c := p]> (threads s)) s).

Section Session.

Variable table : gmap string handler.

(** The statements of the inner [try] before the [sendall]: decode,
    dispatch, attach the [request_id], serialize. *)
Definition reply_to (p : payload) : result pyval :=
  json_data ← loads p;
  request_id ← py_get json_data "request_id" PNone;
  response ← handle_request table json_data;
  response ← attach request_id response;
  json_dumps response.

(** The inner [try] statement with its two [except] clauses. *)
Definition respond (c : sock) (p : payload) : M ctl :=
  try_except
    (json_response ← lift (reply_to p);
     sendall c json_response;;
     mret Next)
    (fun e =>
       if is_json_decode_error e
       then Some (sendall c invalid_json;; mret Break)
       else Some (ignoring (sendall c (server_error (exn_str e)));;
                  mret Break)).

(** The body of [while self.running], with its two [except] clauses. *)
Definition turn (c : sock) (r : received) : M ctl :=
  try_except
    (data ← recv c r;
     match data with
     | None => mret Break
     | Some p => respond c p
     end)
    (fun e =>
       if is_socket_timeout e then Some (mret Next)
       else if is_socket_error e then Some (mret Break)
       else None).

(** The [finally] block. *)
Definition leave (c : sock) : M unit :=
  unregister c;;
  ignoring (close c);;
  set_phase c Finished.

(** The entry of [handle_client], up to the loop. *)
Definition enter (c : sock) : M unit :=
  register c;;
  set_phase c Serving.

(** The loop test and one turn of the loop; the [except Exception]
    clause around the loop and the [finally] block end the session. *)
Definition handle_client_turn (c : sock) (r : received) : M unit :=
  go ← get running;
  if go : bool
  then k ← try_except (turn c r) (fun _ => Some (mret Break));
       match k with
       | Next => mret tt
       | Break => leave c
       end
  else leave c.

Definition serving (c : sock) (s : server) : bool :=
  bool_decide (threads s !! c = Some Serving).

(** [handle_client] on its own, with the results of its [recv] calls:
    it ends when the loop does, and is still in the loop when the list
    runs out before. *)
Fixpoint session (c : sock) (rs : list received) : M unit :=
  match rs with
  | [] => mret tt
  | r :: rs' =>
      handle_client_turn c r;;
      live ← get (serving c);
      if live : bool then session c rs' else mret tt
  end.

Definition handle_client (c : sock) (rs : list received) : M unit :=
  enter c;; session c rs.

End Session.

(** The state the [finally] block of [handle_client] leaves. *)
Definition left (c : sock) (s : server) : server :=
  set_threads (<[c := Finished]> (threads s))
    (log (EvClose c)
       (set_closed ({[c]} ∪ closed s)
          (set_client_sockets (remove_first c (client_sockets s)) s))).

(** A turn of the session loop that answers with a [Server error]
    envelope (written or not) and ends the session. *)
Definition ends_with_server_error (table : gmap string handler) (c : sock)
    (p : payload) (s : server) : Prop :=
  exists detail,
    handle_client_turn table c (RecvData p) s
    = (Ok tt, left c (log (EvSend c (server_error detail) (writable c s)) s)).

(* ===================================================================== *)
(** ** Shutdown and teardown *)
(* ===================================================================== *)

(** The data of the drain [recv(1024)] is dropped and its exceptions are
    swallowed: on the state of the model it does nothing. *)
Definition drain (c : sock) : M unit := ignoring (_ ← recv c RecvTimeout; mret tt).

(** The body of the loop of [disconnect_all_clients]. *)
Definition disconnect_client (c : sock) : M unit :=
  try_except
    (sendall c shutdown_notice;;
     settimeout c;;
     drain c;;
     close c)
    (fun _ => Some (ignoring (close c))).

Definition disconnect_all_clients : M unit :=
  clients_to_close ← get client_sockets;
  for_each disconnect_client clients_to_close;;
  modify (set_client_sockets []).

Definition shutdown : M unit :=
  modify (set_running false);;
  disconnect_all_clients.

(** The threads still alive are joined with a timeout, which changes
    nothing in the server. *)
Definition cleanup : M unit :=
  modify (set_running false);;
  disconnect_all_clients;;
  listener ← get server_socket;
  match listener with
  | Some l => try_except (close l) (fun _ => Some (mret tt))
  | None => mret tt
  end;;
  try_except
    (there ← path_exists;
     if there : bool then unlink else mret tt)
    (fun _ => Some (mret tt)).

(** The state one turn of the loop of [disconnect_all_clients] leaves:
    the notice has been given to [sendall], then the socket is closed. *)
Definition disconnected (c : sock) (s : server) : server :=
  log (EvClose c)
    (set_closed ({[c]} ∪ closed s)
       (log (EvSend c shutdown_notice (writable c s)) s)).

(** The socket a call of the trace is made on. *)
Definition on_sock (ev : io_event) : sock :=
  match ev with
  | EvSend c _ _ => c
  | EvClose c => c
  end.

(* ===================================================================== *)
(** ** Start-up and the accept loop: [start] *)
(* ===================================================================== *)

(** What the operating system answers during start-up, beside the state
    of the socket path: the handle [socket.socket()] returns (or its
    failure), whether the path is one [bind] can use, whether [listen]
    succeeds, and whether [chmod] and [chown] do. *)
Record startup : Type := Startup {
  new_socket : option sock;
  path_usable : bool;
  listen_ok : bool;
  permissions_ok : bool
}.

Definition create_socket (e : startup) : M sock :=
  match new_socket e with
  | Some l => mret l
  | None => raise OSError "[Errno 24] Too many open files"
  end.

(** [bind] makes the socket file: the path must be free and usable, and
    its directory writable. *)
Definition bind (e : startup) : M unit := fun s =>
  if occupied (path s)
  then (Raise (Exn OSError "[Errno 98] Address already in use"), s)
  else if negb (dir_writable s)
  then (Raise (Exn OSError "[Errno 13] Permission denied"), s)
  else if negb (path_usable e)
  then (Raise (Exn OSError "[Errno 2] No such file or directory"), s)
  else (Ok tt, set_path Bound s).

Definition listen (e : startup) : M unit :=
  if listen_ok e then mret tt
  else raise OSError "[Errno 95] Operation not supported".

(** [set_socket_permissions]: the mode and the owner of the socket file
    are not followed by the model; a failure of [chmod] or [chown] is
    caught inside and only printed. *)
Definition set_socket_permissions (e : startup) : M unit :=
  ignoring (if permissions_ok e then mret tt
            else raise OSError "[Errno 1] Operation not permitted").

(** The statements of [start] before the accept loop. *)
Definition open_listener (e : startup) : M unit :=
  there ← path_exists;
  (if there : bool then unlink else mret tt);;
  l ← create_socket e;
  modify (set_server_socket (Some l));;
  bind e;;
  listen e;;
  set_socket_permissions e;;
  modify (set_running true).

(** How one [accept()] of the accept loop ends. *)
Inductive accepted : Type :=
| AcceptTimeout
| AcceptFailed (detail : string)
| Accepted (c : sock).

(** What happens beside the accept loop: a termination signal (its
    handler calls [shutdown]), a session thread reaching the entry of
    [handle_client] or running one turn of its loop, a change on the
    peer's side of a connection. *)
Inductive async : Type :=
| Signal
| Enter (c : sock)
| Turn (c : sock) (r : received)
| Peer (c : sock) (l : link_state).

(** A schedule: the turns of the accept loop with the results of their
    [accept], in between what the other threads and the signals do. *)
Inductive event : Type :=
| Accept (a : accepted)
| Async (b : async).

Definition started (c : sock) (s : server) : bool :=
  bool_decide (threads s !! c = Some Started).

(** A handle the process does not hold yet. *)
Definition fresh (c : sock) (s : server) : bool :=
  bool_decide (threads s !! c = None) && bool_decide (server_socket s ≠ Some c).

(** [settimeout(1.0); accept()] on the listening socket. *)
Definition accept (a : accepted) : M sock := fun s =>
  match server_socket s with
  | None =>
      (Raise (Exn AttributeError "'NoneType' object has no attribute 'settimeout'"), s)
  | Some l =>
      if bool_decide (l ∈ closed s) then (Raise ebadf, s)
      else match a with
           | AcceptTimeout => (Raise (Exn SocketTimeout "timed out"), s)
           | AcceptFailed detail => (Raise (Exn OSError detail), s)
           | Accepted c => (Ok c, s)
           end
  end.

(** [client_thread.start(); self.client_threads.append(client_thread)].
    The start of the thread is taken to succeed. *)
Definition spawn (c : sock) : M unit :=
  set_phase c Started;;
  modify (fun s => set_client_threads (client_threads s ++ [c]) s).

Section Start.

Variable table : gmap string handler.

(** An event that cannot happen in a state is skipped: [accept] gives
    a new handle, a thread enters [handle_client] once, and runs its
    loop only between the entry and the [finally] block. *)
Definition enabled (ev : event) (s : server) : bool :=
  match ev with
  | Accept (Accepted c) => fresh c s
  | Accept _ => true
  | Async (Enter c) => started c s
  | Async (Turn c _) => serving c s
  | Async _ => true
  end.

Definition step (b : async) : M unit :=
  match b with
  | Signal => shutdown
  | Enter c => enter c
  | Turn c r => handle_client_turn table c r
  | Peer c l => modify (fun s => set_link (<[c := l]> (link s)) s)
  end.

(** The body of the accept loop. *)
Definition accept_turn (a : accepted) : M ctl :=
  try_except
    (c ← accept a;
     spawn c;;
     mret Next)
    (fun e =>
       if is_socket_timeout e then Some (mret Next)
       else if is_socket_error e then Some (mret Break)
       else None).

(** [while self.running] along a schedule: [true] when the loop is
    left, [false] when the schedule ends with the server still in it.
    An [Accept] event is one turn of the loop taken whole, from its loop
    test to the end of its body, and what the other threads and the
    signals do falls between two turns. The schedule is played to its
    end: after its last event nothing more arrives, the [accept] in
    progress runs into its timeout and the loop test decides. *)
Fixpoint accept_loop (sched : list event) : M bool :=
  match sched with
  | [] => go ← get running; mret (negb go)
  | ev :: sched' =>
      ok ← get (enabled ev);
      if ok : bool
      then match ev with
           | Accept a =>
               go ← get running;
               if go : bool
               then k ← accept_turn a;
                    match k with
                    | Next => accept_loop sched'
                    | Break => mret true
                    end
               else mret true
           | Async b => step b;; accept_loop sched'
           end
      else accept_loop sched'
  end.

(** [start]: the exit code, or [None] when the schedule ends with the
    server still listening. The [finally] clause runs [cleanup] on the
    way out. *)
Definition start (e : startup) (sched : list event) : M (option Z) :=
  code ← try_except
            (open_listener e;;
             left ← accept_loop sched;
             mret (if left : bool then Some 0 else None))
            (fun _ => Some (mret (Some 1)));
  match code with
  | Some _ => cleanup;; mret code
  | None => mret None
  end.

End Start.

(* ===================================================================== *)
(** ** Ownership of the socket file: the body of [set_socket_permissions] *)
(* ===================================================================== *)

Module Permissions.

(** [socket_user] and [socket_group] when they are not [None]: a name
    (a str) or a number (an int). *)
Inductive owner : Type :=
| Name (name : string)
| Id (id : Z).

(** How a lookup in the user or the group database ends: the entry
    with its id, a [KeyError] when there is no entry of that name, or
    an exception of another class (a [ValueError] for a name with a
    null byte in it). *)
Inductive lookup : Type :=
| Entry (id : Z)
| NoEntry
| LookupFails.

(** What the calls of the function depend on: [os.getuid()],
    [pwd.getpwnam] and [grp.getgrnam], and whether [os.chmod] and
    [os.chown] succeed. *)
Record os_env : Type := OsEnv {
  getuid : Z;
  getpwnam : string -> lookup;
  getgrnam : string -> lookup;
  chmod_ok : bool;
  chown_ok : bool
}.

(** The calls made on the socket file. *)
Inductive call : Type :=
| Chmod (mode : Z)
| Chown (uid gid : Z).

(** The id an owner stands for; -1, which [os.chown] reads as no
    change, when there is none or when the lookup of the name raises a
    [KeyError], the one exception caught on the spot. [None] when the
    lookup raises another exception. *)
Definition resolve (db : string -> lookup) (o : option owner) : option Z :=
  match o with
  | None => Some (-1)
  | Some (Name name) =>
      match db name with
      | Entry id => Some id
      | NoEntry => Some (-1)
      | LookupFails => None
      end
  | Some (Id id) => Some id
  end.

(** The calls [set_socket_permissions] makes, in order; every exception
    that is not caught on the spot ends the function, caught by its
    [except Exception]. *)
Definition set_socket_permissions (env : os_env)
    (socket_user socket_group : option owner) (socket_mode : Z) : list call :=
  Chmod socket_mode ::
  (if chmod_ok env
   then if Z.eqb (getuid env) 0
        then match resolve (getpwnam env) socket_user with
             | None => []
             | Some uid =>
                 match resolve (getgrnam env) socket_group with
                 | None => []
                 | Some gid =>
                     if negb (Z.eqb uid (-1)) || negb (Z.eqb gid (-1))
                     then [Chown uid gid]
                     else []
                 end
             end
        else []
   else []).

End Permissions.

(* ===================================================================== *)
(** ** The earlier server (connections/server.py) *)
(* ===================================================================== *)

(** The server of connections/server.py has no registry, no
    [request_id] and no error envelopes of its own but one; its socket
    calls are those of the server above. Its table [METHODS] comes from
    a module that is not in the repository: it is a parameter. *)
Module Connections.

Section Server.

Variable table : gmap string handler.

(** The text of the only error envelope: the source has no [f] before
    the string, so the braces stay. *)
Definition invalid_arguments : pyval :=
  error_envelope "Invalid arguments '{args}' for method '{method}'.".

(** Only [TypeError] is caught. *)
Definition handle_request (json_data : pyval) : result pyval :=
  method ← py_get json_data "method" PNone;
  if negb (truthy method) then Ok no_method
  else
    method_handler ← table_get table method;
    match method_handler with
    | None => Ok (no_such_method method)
    | Some h =>
        args ← py_get json_data "args" (PList []);
        match h args with
        | Ok response => Ok response
        | Raise e => if is_type_error e then Ok invalid_arguments else Raise e
        end
    end.

(** The statements of the inner [try] before the [sendall]. *)
Definition reply_to (p : payload) : result pyval :=
  json_data ← loads p;
  response ← handle_request json_data;
  json_dumps response.

(** The inner [try]: every exception is printed and ends the loop. *)
Definition respond (c : sock) (p : payload) : M ctl :=
  try_except
    (json_data ← lift (reply_to p);
     sendall c json_data;;
     mret Next)
    (fun _ => Some (mret Break)).

Definition turn (c : sock) (r : received) : M ctl :=
  try_except
    (data ← recv c r;
     match data with
     | None => mret Break
     | Some p => respond c p
     end)
    (fun e =>
       if is_socket_timeout e then Some (mret Next)
       else if is_socket_error e then Some (mret Break)
       else None).

(** The [finally] block: [client_socket.close()]. *)
Definition leave (c : sock) : M unit :=
  close c;;
  set_phase c Finished.

Definition handle_client_turn (c : sock) (r : received) : M unit :=
  go ← get running;
  if go : bool
  then k ← try_except (turn c r) (fun _ => Some (mret Break));
       match k with
       | Next => mret tt
       | Break => leave c
       end
  else leave c.

(** [shutdown] only clears the flag. *)
Definition shutdown : M unit := modify (set_running false).

End Server.

End Connections.

(* ===================================================================== *)
(** ** The module scripts: what they print *)
(* ===================================================================== *)

(** [OutputInfo], the dataclass each script defines: [text] and three
    fields that may be [None]. *)
Record OutputInfo : Type := Output {
  text : string;
  tooltip : option string;
  alt : option string;
  percentage : option Z
}.

Definition opt_str (o : option string) : option pyval :=
  match o with Some s => Some (PStr s) | None => None end.

Definition opt_int (o : option Z) : option pyval :=
  match o with Some n => Some (PInt n) | None => None end.

(** [{k: v for k, v in asdict(info).items() if v is not None}], the
    object each script prints. *)
Definition printed (info : OutputInfo) : list (string * pyval) :=
  omap (fun kv : string * option pyval =>
          match snd kv with Some v => Some (fst kv, v) | None => None end)
    [("text", Some (PStr (text info))); ("tooltip", opt_str (tooltip info));
     ("alt", opt_str (alt info)); ("percentage", opt_int (percentage info))].

(** *** updates/main.py *)

Module Updates.

Definition byte (n : N) : ascii := ascii_of_N n.

(** [str.splitlines()] on the UTF-8 bytes of a str. [line] is the line
    read so far. The line boundaries are LF, CR, CR LF, VT, FF, FS, GS,
    RS, NEL (C2 85) and LS, PS (E2 80 A8, E2 80 A9); a boundary at the
    very end opens no further line. *)
Definition single_break (a : ascii) : bool :=
  let n := N_of_ascii a in
  N.eqb n 10 || N.eqb n 11 || N.eqb n 12 || N.eqb n 28 || N.eqb n 29 || N.eqb n 30.

Definition last_line (line : string) : list string :=
  match line with
  | EmptyString => []
  | _ => [line]
  end.

Fixpoint splitlines_from (line : string) (s : string) : list string :=
  match s with
  | EmptyString => last_line line
  | String a s1 =>
      if single_break a then line :: splitlines_from "" s1
      else if N.eqb (N_of_ascii a) 13
      then match s1 with
           | String b s2 =>
               if N.eqb (N_of_ascii b) 10 then line :: splitlines_from "" s2
               else line :: splitlines_from "" s1
           | EmptyString => line :: splitlines_from "" s1
           end
      else if N.eqb (N_of_ascii a) 194
      then match s1 with
           | String b s2 =>
               if N.eqb (N_of_ascii b) 133 then line :: splitlines_from "" s2
               else splitlines_from (line +:+ String a "") s1
           | EmptyString => splitlines_from (line +:+ String a "") s1
           end
      else if N.eqb (N_of_ascii a) 226
      then match s1 with
           | String b (String d s3) =>
               if N.eqb (N_of_ascii b) 128
                  && (N.eqb (N_of_ascii d) 168 || N.eqb (N_of_ascii d) 169)
               then line :: splitlines_from "" s3
               else splitlines_from (line +:+ String a "") s1
           | _ => splitlines_from (line +:+ String a "") s1
           end
      else splitlines_from (line +:+ String a "") s1
  end.

Definition splitlines (s : string) : list string := splitlines_from "" s.

(** [main], for the outcome of [artix-checkupdates -fu] (run with
    [check=True]: a non-zero exit status raises, and nothing catches
    it). *)
Definition main (run : completed) : result OutputInfo :=
  match run with
  | Completed stdout =>
      let update_count := Z.of_nat (length (splitlines stdout)) - 2 in
      Ok (Output (pretty update_count) None
            (Some (if Z.ltb 0 update_count
                   then "updates_available" else "no_updates_available"))
            None)
  | CalledProcessError rc err =>
      Raise (Exn OtherException
               ("Command '['artix-checkupdates', '-fu']' returned non-zero exit status "
                  +:+ pretty rc +:+ "."))
  | RunFailed e => Raise e
  end.

End Updates.

(** *** mail/main.py *)

Module Mail.

(** What an IMAP command gives: an exception, or a status with data. *)
Inductive reply : Type :=
| Raises
| Reply (status : string) (data : list (option string)).

(** A folder of the configuration as the server treats it: its name,
    and what [select] and, if it comes to that, [search] give. *)
Record folder : Type := Folder {
  name : string;
  select : reply;
  search : reply
}.

(** The commands sent to the server. *)
Inductive call : Type :=
| Connect
| Login
| Select (folder_name : string)
| Search
| Logout.

(** ASCII whitespace, where [bytes.split()] splits. *)
Definition is_space (a : ascii) : bool :=
  let n := N_of_ascii a in
  N.eqb n 32 || (N.leb 9 n && N.leb n 13).

(** [len(b.split())]: the number of runs of bytes that are no
    whitespace. [inside] says that the byte before was in such a run. *)
Fixpoint count_words (inside : bool) (b : string) : nat :=
  match b with
  | EmptyString => 0
  | String a b' =>
      if is_space a then count_words false b'
      else (if inside then 0 else 1) + count_words true b'
  end.

(** The body of the loop over the folders: the new value of
    [account_unread] and the commands sent. *)
Definition check_folder (account_unread : Z) (f : folder) : Z * list call :=
  match select f with
  | Raises => (account_unread, [Select (name f)])
  | Reply status _ =>
      if negb (String.eqb status "OK") then (account_unread, [Select (name f)])
      else match search f with
           | Raises => (account_unread, [Select (name f); Search])
           | Reply status' response =>
               if negb (String.eqb status' "OK")
               then (account_unread, [Select (name f); Search])
               else match response with
                    | Some b :: _ =>
                        (match b with
                         | EmptyString => account_unread
                         | _ => account_unread + Z.of_nat (count_words false b)
                         end,
                         [Select (name f); Search])
                    | _ => (account_unread, [Select (name f); Search])
                    end
           end
  end.

Fixpoint check_folders (account_unread : Z) (folders : list folder) : Z * list call :=
  match folders with
  | [] => (account_unread, [])
  | f :: rest =>
      let (n, calls) := check_folder account_unread f in
      let (n', calls') := check_folders n rest in
      (n', (calls ++ calls')%list)
  end.

(** [check_mail_account], for a configuration with all its keys: whether
    the connection and the login succeed, and the folders. The result
    and the commands sent, [Logout] by the [finally] clause. *)
Definition check_mail_account (connected logged_in : bool) (folders : list folder)
  : Z * list call :=
  if negb connected then (0, [Connect])
  else if negb logged_in then (0, [Connect; Login; Logout])
  else let (n, calls) := check_folders 0 folders in
       (n, ([Connect; Login] ++ calls ++ [Logout])%list).

(** What the future of an account gives to [main]: the result of
    [check_mail_account], or an exception (a key missing in the
    configuration). *)
Inductive account : Type :=
| Broken
| Account (connected logged_in : bool) (folders : list folder).

(** The loop over [as_completed]: the futures in the order in which
    they complete. *)
Definition add_result (total : Z) (a : account) : Z :=
  match a with
  | Broken => total
  | Account c l fs => total + fst (check_mail_account c l fs)
  end.

(** [main] once the configuration is loaded, in a run without
    [--send-notification]: its accounts, in the order in which their
    checks complete. *)
Definition main (completed : list account) : OutputInfo :=
  match completed with
  | [] => Output "N/A" (Some "No mail accounts configured") (Some "caught_up") None
  | _ =>
      let total_unread_messages := fold_left add_result completed 0 in
      Output (pretty total_unread_messages)
        (Some ("You have <b>" +:+ pretty total_unread_messages +:+ "</b> unread messages"))
        (Some (if Z.ltb 0 total_unread_messages then "unread_mails" else "caught_up"))
        None
  end.

End Mail.

(* ===================================================================== *)
(** ** Vocabulary of the properties *)
(* ===================================================================== *)

(** Two states that differ at most by calls added to the trace. *)
Definition same_but_trace (s s' : server) : Prop :=
  running s' = running s /\ client_sockets s' = client_sockets s
  /\ client_threads s' = client_threads s /\ server_socket s' = server_socket s
  /\ closed s' = closed s /\ link s' = link s /\ threads s' = threads s
  /\ path s' = path s /\ dir_writable s' = dir_writable s.

(** A statement that only adds calls to the trace. *)
Definition traces_only {A : Type} (m : M A) : Prop :=
  forall s, same_but_trace s (snd (m s)).

(** The registry and the session threads agree: no handle is registered
    twice, a registered handle belongs to a session between its entry
    and its exit, and, as long as the server is running, every such
    session has its handle registered. *)
Definition registry_ok (s : server) : Prop :=
  NoDup (client_sockets s)
  /\ (forall c, c ∈ client_sockets s -> threads s !! c = Some Serving)
  /\ (running s = true ->
      forall c, threads s !! c = Some Serving -> c ∈ client_sockets s).

(** Two states such that the second comes from the first by calls on
    the socket [c] only. *)
Definition acts_on (c : sock) (s s' : server) : Prop :=
  same_but_trace s s'
  /\ exists calls,
       trace s' = (trace s ++ calls)%list
       /\ Forall (fun ev => on_sock ev = c) calls.

(** A statement that only makes calls on the socket [c]. *)
Definition only_on {A : Type} (c : sock) (m : M A) : Prop :=
  forall s, acts_on c s (snd (m s)).

(** What no step beside the accept loop touches: the listening socket,
    the socket path and its directory, the list of threads; and the
    flag [running] is never set again. *)
Definition loop_frame (s s' : server) : Prop :=
  server_socket s' = server_socket s /\ path s' = path s
  /\ dir_writable s' = dir_writable s
  /\ (running s = false -> running s' = false).

(** A text without any line boundary of [str.splitlines]: none of the
    bytes LF, VT, FF, FS, GS, RS and CR, and neither NEL (C2 85) nor LS
    or PS (E2 80 A8, E2 80 A9). *)
Definition starts_boundary (a : ascii) (rest : string) : bool :=
  let n := N_of_ascii a in
  Updates.single_break a || N.eqb n 13
  || (N.eqb n 194
      && match rest with
         | String b _ => N.eqb (N_of_ascii b) 133
         | EmptyString => false
         end)
  || (N.eqb n 226
      && match rest with
         | String b (String d _) =>
             N.eqb (N_of_ascii b) 128
             && (N.eqb (N_of_ascii d) 168 || N.eqb (N_of_ascii d) 169)
         | _ => false
         end).

Fixpoint plain (line : string) : bool :=
  match line with
  | EmptyString => true
  | String a line' => negb (starts_boundary a line') && plain line'
  end.

(** The lines, each followed by a line feed. *)
Fixpoint unlines (lines : list string) : string :=
  match lines with
  | [] => ""
  | l :: lines' => l +:+ String (Updates.byte 10) (unlines lines')
  end.

(** The unread messages one folder adds to a count. *)
Definition folder_unread (f : Mail.folder) : Z := fst (Mail.check_folder 0 f).

(** The unread messages of an account, as [main] comes to count them. *)
Definition account_unread (a : Mail.account) : Z := Mail.add_result 0 a.

(** The folders a list of commands selects, in order. *)
Definition selected (calls : list Mail.call) : list string :=
  omap (fun x => match x with Mail.Select n => Some n | _ => None end) calls.

(* ===================================================================== *)
(** ** Sample data *)
(* ===================================================================== *)

(** The table of methods.py when both pacman runs succeed. *)
Definition sample_table : gmap string handler :=
  METHODS (Completed "") (Completed "pkgA 1.0->1.1").

(** A table with one more method, which returns a list. *)
Definition ping_table : gmap string handler :=
  <[ "ping" := fun _ => Ok (PList [PStr "pong"]) ]> sample_table.

(** A listening server with one client, handle 1, in its session loop. *)
Definition one_client : server :=
  Server true [1%nat] [1%nat] (Some 0%nat) ∅ ∅ {[ 1%nat := Serving ]} Bound true [].

(* ===================================================================== *)
(** * Properties *)
(* ===================================================================== *)

(** ** Values *)

Example py_str_args :
  py_str (PList [PInt 1; PStr "a"; PNone; PDict [("k", PBool true)]])
  = "[1, 'a', None, {'k': True}]".
Proof. vm_compute. reflexivity. Qed.

(** A str unpacks to its characters, not to its bytes: here e with an
    acute accent (C3 A9) between two letters. *)
Example chars_of_accented :
  let e_acute := String (ascii_of_N 195) (String (ascii_of_N 169) "") in
  chars ("h" +:+ e_acute +:+ "y") = [PStr "h"; PStr e_acute; PStr "y"].
Proof. reflexivity. Qed.

Example py_repr_quotes :
  py_repr (PStr "it's") = String dquote ("it's" +:+ String dquote "")
  /\ py_repr (PInt (-12)) = "-12".
Proof. vm_compute. split; reflexivity. Qed.

Lemma json_value_dict_cons k v d :
  json_value (PDict ((k, v) :: d)) = json_value v && json_value (PDict d).
Proof.
  unfold json_value. cbn. destruct (first_object v); reflexivity.
Qed.

Lemma json_value_dict_get d k v :
  json_value (PDict d) = true -> dict_get d k = Some v -> json_value v = true.
Proof.
  induction d as [|[k' v'] d IH]; [discriminate|].
  rewrite json_value_dict_cons. intros [Hv Hd]%andb_prop. cbn.
  destruct (String.eqb k' k); [intros [= <-]; exact Hv | intros; auto].
Qed.

Lemma json_value_dict_set d k v :
  json_value (PDict d) = true -> json_value v = true ->
  json_value (PDict (dict_set d k v)) = true.
Proof.
  intros Hd Hv. induction d as [|[k' v'] d IH]; cbn.
  - rewrite json_value_dict_cons, Hv. reflexivity.
  - rewrite json_value_dict_cons in Hd. apply andb_prop in Hd as [Hv' Hd].
    destruct (String.eqb k' k); rewrite json_value_dict_cons.
    + rewrite Hv, Hd. reflexivity.
    + rewrite Hv', (IH Hd). reflexivity.
Qed.

Lemma dict_get_set d k v : dict_get (dict_set d k v) k = Some v.
Proof.
  induction d as [|[k' v'] d IH]; cbn.
  - rewrite String.eqb_refl. reflexivity.
  - destruct (String.eqb k' k) eqn:E; cbn; rewrite E; auto.
Qed.

Lemma dict_get_set_ne d k k' v :
  k <> k' -> dict_get (dict_set d k v) k' = dict_get d k'.
Proof.
  intros Hne. induction d as [|[k0 v0] d IH]; cbn.
  - destruct (String.eqb_spec k k'); [contradiction | reflexivity].
  - destruct (String.eqb_spec k0 k) as [->|]; cbn.
    + destruct (String.eqb_spec k k'); [contradiction | reflexivity].
    + destruct (String.eqb k0 k'); auto.
Qed.

Lemma json_dumps_ok v : json_value v = true -> json_dumps v = Ok v.
Proof.
  unfold json_value, json_dumps. destruct (first_object v); [discriminate | reflexivity].
Qed.

Lemma json_dumps_refused v :
  json_value v = false -> exists detail, json_dumps v = Raise (Exn TypeError detail).
Proof.
  unfold json_value, json_dumps. destruct (first_object v); [eauto | discriminate].
Qed.

(** The request's own [request_id] can always be attached to a dict, and
    the result is still a JSON value. *)
Lemma attach_dict rid r :
  attach rid (PDict r)
  = Ok (if truthy rid then PDict (dict_set r "request_id" rid) else PDict r).
Proof. unfold attach. destruct (truthy rid); reflexivity. Qed.

(** ** The dispatcher *)

Example handle_request_nope sy sup :
  handle_request (METHODS sy sup) (PDict [("method", PStr "nope")])
  = Ok (error_envelope "No such method: 'nope'").
Proof. reflexivity. Qed.

Example handle_request_list_updates :
  handle_request (METHODS (Completed "") (Completed "pkgA 1.0->1.1"))
    (PDict [("method", PStr "list_updates"); ("args", PList []);
            ("request_id", PStr "abc")])
  = Ok (PDict [("success", PBool true); ("updates", PStr "pkgA 1.0->1.1")]).
Proof. reflexivity. Qed.

Example handle_request_arity :
  handle_request (METHODS (Completed "") (Completed ""))
    (PDict [("method", PStr "list_updates"); ("args", PList [PInt 1])])
  = Ok (error_envelope
          "Invalid arguments '[1]' for method 'list_updates': list_updates() takes 0 positional arguments but 1 was given").
Proof. vm_compute. reflexivity. Qed.

Section DispatcherFacts.

Variable table : gmap string handler.

Lemma handle_request_falsy_method d :
  truthy (field d "method" PNone) = false ->
  handle_request table (PDict d) = Ok no_method.
Proof.
  intros H. unfold handle_request, field in *. cbn.
  destruct (dict_get d "method"); cbn; [rewrite H|]; reflexivity.
Qed.

Lemma handle_request_invokes d m h :
  dict_get d "method" = Some (PStr m) -> m <> "" -> table !! m = Some h ->
  handle_request table (PDict d)
  = match h (field d "args" (PList [])) with
    | Ok response => Ok response
    | Raise e =>
        if is_type_error e
        then Ok (invalid_arguments (field d "args" (PList [])) (PStr m) (exn_str e))
        else Ok (method_failed (PStr m) (exn_str e))
    end.
Proof.
  intros Hm Hne Hh. unfold handle_request, field, py_get. rewrite Hm.
  cbn [mbind result_bind truthy negb table_get].
  destruct (String.eqb_spec m ""); [contradiction|]. cbn [negb].
  rewrite Hh. reflexivity.
Qed.

End DispatcherFacts.

(** ** Socket calls *)

Ltac unfold_m :=
  unfold ignoring; unfold try_except, lift, get, modify, raise;
  unfold mbind, mret, M_bind, M_ret; cbn beta.

Ltac fields :=
  cbn [running client_sockets client_threads server_socket closed link threads
       path dir_writable trace set_running set_client_sockets set_client_threads
       set_server_socket set_closed set_link set_threads set_path log fst snd].

Lemma writable_true c s :
  writable c s = true <-> ((c ∉ closed s) /\ link_of s c = LinkUp).
Proof.
  unfold writable. rewrite andb_true_iff, !bool_decide_eq_true. reflexivity.
Qed.

Lemma sendall_writable c msg s :
  writable c s = true -> sendall c msg s = (Ok tt, log (EvSend c msg true) s).
Proof.
  intros [Hc Hl]%writable_true. unfold sendall.
  rewrite bool_decide_eq_false_2 by assumption. rewrite Hl. reflexivity.
Qed.

(** A [sendall] whose exceptions are swallowed: the call is made, and
    the message is written when the connection is writable. *)
Lemma ignoring_sendall c msg s :
  ignoring (sendall c msg) s = (Ok tt, log (EvSend c msg (writable c s)) s).
Proof.
  unfold_m. unfold sendall, writable.
  destruct (bool_decide (c ∈ closed s)) eqn:E.
  - rewrite bool_decide_eq_false_2; [reflexivity|].
    apply bool_decide_eq_true in E. intros H. exact (H E).
  - rewrite bool_decide_eq_true_2 by (apply bool_decide_eq_false in E; exact E).
    destruct (link_of s c); reflexivity.
Qed.

(** [sendall] only raises socket errors. *)
Lemma sendall_raises c msg s e s' :
  sendall c msg s = (Raise e, s') ->
  is_socket_error e = true /\ is_json_decode_error e = false
  /\ s' = log (EvSend c msg false) s /\ writable c s = false.
Proof.
  unfold sendall, writable.
  destruct (bool_decide (c ∈ closed s)) eqn:E.
  - intros [= <- <-]. rewrite bool_decide_eq_false_2; [auto|].
    apply bool_decide_eq_true in E. intros H. exact (H E).
  - destruct (link_of s c); intros [= <- <-]; rewrite andb_false_r; auto.
Qed.

Lemma recv_open c r s :
  c ∉ closed s ->
  recv c r s = match r with
               | RecvTimeout => (Raise (Exn SocketTimeout "timed out"), s)
               | RecvFailed detail => (Raise (Exn OSError detail), s)
               | RecvEmpty => (Ok None, s)
               | RecvData p => (Ok (Some p), s)
               end.
Proof.
  intros H. unfold recv. rewrite bool_decide_eq_false_2 by assumption. reflexivity.
Qed.

(** ** The session loop *)

Lemma remove_first_absent c l : c ∉ l -> remove_first c l = l.
Proof.
  induction l as [|y l IH]; [reflexivity|]. cbn.
  intros H. apply not_elem_of_cons in H as [Hne Hl].
  rewrite bool_decide_eq_false_2 by assumption. rewrite IH by assumption. reflexivity.
Qed.

Lemma unregister_eq c s :
  unregister c s = (Ok tt, set_client_sockets (remove_first c (client_sockets s)) s).
Proof.
  unfold unregister, modify. destruct (bool_decide (c ∈ client_sockets s)) eqn:E.
  - reflexivity.
  - apply bool_decide_eq_false in E. rewrite remove_first_absent by assumption.
    destruct s; reflexivity.
Qed.

Lemma left_facts c s :
  trace (left c s) = (trace s ++ [EvClose c])%list
  /\ c ∈ closed (left c s)
  /\ serving c (left c s) = false
  /\ client_sockets (left c s) = remove_first c (client_sockets s)
  /\ running (left c s) = running s.
Proof.
  cbn. repeat split.
  - set_solver.
  - unfold serving. cbn. rewrite lookup_insert_eq. reflexivity.
Qed.

Section SessionFacts.

Variable table : gmap string handler.

Lemma leave_eq c s : leave c s = (Ok tt, left c s).
Proof.
  unfold leave. unfold_m. rewrite unregister_eq. reflexivity.
Qed.

Lemma respond_ok c p s reply :
  reply_to table p = Ok reply -> writable c s = true ->
  respond table c p s = (Ok Next, log (EvSend c reply true) s).
Proof.
  intros Hr Hw. unfold respond. unfold_m. rewrite Hr.
  rewrite sendall_writable by assumption. reflexivity.
Qed.

Lemma respond_server_error c p s e :
  reply_to table p = Raise e -> is_json_decode_error e = false ->
  respond table c p s
  = (Ok Break, log (EvSend c (server_error (exn_str e)) (writable c s)) s).
Proof.
  intros Hr He. unfold respond.
  unfold try_except at 1. unfold lift, mbind, mret, M_bind, M_ret.
  rewrite Hr, He. rewrite ignoring_sendall. reflexivity.
Qed.

Lemma turn_reply c p s reply :
  running s = true -> writable c s = true -> reply_to table p = Ok reply ->
  handle_client_turn table c (RecvData p) s = (Ok tt, log (EvSend c reply true) s).
Proof.
  intros Hrun Hw Hr. pose proof Hw as [Hc _]%writable_true.
  unfold handle_client_turn, turn. unfold_m. rewrite Hrun.
  rewrite recv_open by assumption. rewrite (respond_ok _ _ _ reply) by assumption.
  reflexivity.
Qed.

Lemma turn_server_error c p s e :
  running s = true -> c ∉ closed s ->
  reply_to table p = Raise e -> is_json_decode_error e = false ->
  handle_client_turn table c (RecvData p) s
  = (Ok tt, left c (log (EvSend c (server_error (exn_str e)) (writable c s)) s)).
Proof.
  intros Hrun Hc Hr He.
  unfold handle_client_turn, turn. unfold_m. rewrite Hrun.
  rewrite recv_open by assumption. rewrite (respond_server_error _ _ _ e) by assumption.
  rewrite leave_eq. reflexivity.
Qed.

Lemma turn_invalid_json c p s e :
  running s = true -> writable c s = true ->
  reply_to table p = Raise e -> is_json_decode_error e = true ->
  handle_client_turn table c (RecvData p) s
  = (Ok tt, left c (log (EvSend c invalid_json true) s)).
Proof.
  intros Hrun Hw Hr He. pose proof Hw as [Hc _]%writable_true.
  unfold handle_client_turn, turn. unfold_m. rewrite Hrun.
  rewrite recv_open by assumption.
  unfold respond. unfold_m. rewrite Hr, He.
  rewrite sendall_writable by assumption. rewrite leave_eq. reflexivity.
Qed.

End SessionFacts.

(** ** One request, one answer *)

Section Answers.

Variable table : gmap string handler.

Lemma reply_to_dict d :
  reply_to table (Json (PDict d))
  = match handle_request table (PDict d) with
    | Ok response =>
        match attach (field d "request_id" PNone) response with
        | Ok response' => json_dumps response'
        | Raise e => Raise e
        end
    | Raise e => Raise e
    end.
Proof. reflexivity. Qed.

Lemma reply_to_non_dict v :
  (forall d, v <> PDict d) ->
  reply_to table (Json v)
  = Raise (Exn AttributeError ("'" +:+ type_name v +:+ "' object has no attribute 'get'")).
Proof.
  intros H. destruct v; try reflexivity. destruct (H d eq_refl).
Qed.

(** A request whose dispatch gives a dict: the dict goes out, with the
    request's [request_id] when that is truthy. *)
Lemma turn_dict_reply c d r s :
  json_value (PDict d) = true ->
  handle_request table (PDict d) = Ok (PDict r) -> json_value (PDict r) = true ->
  running s = true -> writable c s = true ->
  handle_client_turn table c (RecvData (Json (PDict d))) s
  = (Ok tt,
     log (EvSend c (if truthy (field d "request_id" PNone)
                    then PDict (dict_set r "request_id" (field d "request_id" PNone))
                    else PDict r) true) s).
Proof.
  intros Hd Hreq Hr Hrun Hw. apply turn_reply; try assumption.
  rewrite reply_to_dict, Hreq, attach_dict. apply json_dumps_ok.
  destruct (truthy (field d "request_id" PNone)) eqn:E; [|assumption].
  apply json_value_dict_set; [assumption|].
  unfold field in *. destruct (dict_get d "request_id") eqn:G; [|discriminate].
  exact (json_value_dict_get d _ _ Hd G).
Qed.

End Answers.

(** C1, as amended. A request that is a JSON object, whose [method] is a
    non-empty name of the table, and whose handler returns a value [v]
    that [json.dumps] accepts: the dispatcher returns [v] unchanged; on
    a writable connection the answer written is [v] itself when the
    request has no [request_id] or one that is not truthy, and [v] with
    the key [request_id] set to the request's value when that value is
    truthy and [v] is a dict. The session stays in its loop. *)
Theorem handler_result_passes_through
    (table : gmap string handler) (c : sock) d m h v s :
  json_value (PDict d) = true ->
  dict_get d "method" = Some (PStr m) -> m <> "" -> table !! m = Some h ->
  h (field d "args" (PList [])) = Ok v ->
  json_value v = true ->
  running s = true -> writable c s = true ->
  handle_request table (PDict d) = Ok v
  /\ (truthy (field d "request_id" PNone) = false ->
      handle_client_turn table c (RecvData (Json (PDict d))) s
      = (Ok tt, log (EvSend c v true) s))
  /\ (forall r, truthy (field d "request_id" PNone) = true -> v = PDict r ->
      handle_client_turn table c (RecvData (Json (PDict d))) s
      = (Ok tt,
         log (EvSend c (PDict (dict_set r "request_id" (field d "request_id" PNone)))
                true) s)).
Proof.
  intros Hd Hm Hne Hh Hv Hjv Hrun Hw.
  assert (Hreq : handle_request table (PDict d) = Ok v).
  { rewrite (handle_request_invokes table d m h) by assumption. rewrite Hv. reflexivity. }
  split; [exact Hreq|]. split.
  - intros Hfalsy. apply turn_reply; try assumption.
    rewrite reply_to_dict, Hreq. unfold attach. rewrite Hfalsy.
    apply json_dumps_ok. assumption.
  - intros r Htruthy ->.
    rewrite (turn_dict_reply table c d r s) by assumption.
    rewrite Htruthy. reflexivity.
Qed.

Lemma handler_result_passes_through_witness :
  let d := [("method", PStr "list_updates"); ("args", PList []);
            ("request_id", PStr "abc")] in
  let v := PDict [("success", PBool true); ("updates", PStr "pkgA 1.0->1.1")] in
  handle_request sample_table (PDict d) = Ok v
  /\ handle_client_turn sample_table 1%nat (RecvData (Json (PDict d))) one_client
     = (Ok tt,
        log (EvSend 1%nat
               (PDict [("success", PBool true); ("updates", PStr "pkgA 1.0->1.1");
                       ("request_id", PStr "abc")]) true) one_client).
Proof.
  intros d v.
  destruct (handler_result_passes_through sample_table 1%nat d "list_updates"
              (list_updates (Completed "") (Completed "pkgA 1.0->1.1")) v one_client)
    as [H1 [_ H3]]; try reflexivity; [discriminate|].
  split; [exact H1|]. exact (H3 _ eq_refl eq_refl).
Defined.

(** C1 as stated fails: the request supplies the [request_id] 0, the
    handler returns normally, and the answer written is the handler's
    value with no [request_id] in it. *)
Lemma falsy_request_id_not_echoed_on_success :
  let d := [("method", PStr "list_updates"); ("request_id", PInt 0)] in
  let v := [("success", PBool true); ("updates", PStr "pkgA 1.0->1.1")] in
  dict_get d "request_id" = Some (PInt 0)
  /\ list_updates (Completed "") (Completed "pkgA 1.0->1.1") (PList []) = Ok (PDict v)
  /\ trace (snd (handle_client_turn sample_table 1%nat (RecvData (Json (PDict d)))
                   one_client))
     = [EvSend 1%nat (PDict v) true]
  /\ dict_get v "request_id" = None
  /\ PDict v <> PDict (dict_set v "request_id" (PInt 0)).
Proof.
  cbv zeta. repeat split; try reflexivity. discriminate.
Qed.

(** What the dispatcher returns for a JSON object is the handler's own
    value or one of its four error envelopes. *)
Lemma handle_request_shapes (table : gmap string handler) d v :
  handle_request table (PDict d) = Ok v ->
  (exists msg, v = error_envelope msg)
  \/ (exists m h, table !! m = Some h /\ h (field d "args" (PList [])) = Ok v).
Proof.
  unfold handle_request, field, py_get. cbn [mbind result_bind].
  destruct (negb (truthy _)) eqn:Hm; [intros [= <-]; left; eexists; reflexivity|].
  destruct (table_get table _) as [[h|]|e] eqn:Ht; cbn [mbind result_bind].
  - destruct (h _) as [v'|e] eqn:Hh.
    + intros [= <-]. right.
      destruct (match dict_get d "method" with Some v0 => v0 | None => PNone end)
        eqn:Hv; try discriminate.
      exists s, h. split; [|exact Hh]. cbn in Ht. congruence.
    + destruct (is_type_error e); intros [= <-]; left; eexists; reflexivity.
  - intros [= <-]. left. eexists. reflexivity.
  - discriminate.
Qed.

(** No statement of the inner [try] after the decoding raises a
    [JSONDecodeError]. *)
Lemma reply_to_json_not_decode_error (table : gmap string handler) v e :
  reply_to table (Json v) = Raise e -> is_json_decode_error e = false.
Proof.
  unfold reply_to. cbn [loads mbind result_bind].
  destruct v as [| b | n | str | l | d | ty tr];
    try (cbn [py_get mbind result_bind]; intros [= <-]; reflexivity).
  cbn [py_get mbind result_bind].
  destruct (handle_request table (PDict d)) as [response|e0] eqn:Hreq;
    cbn [mbind result_bind].
  - unfold attach, setitem.
    destruct (truthy _).
    + destruct response; cbn [mbind result_bind]; try (intros [= <-]; reflexivity).
      unfold json_dumps. destruct (first_object _); intros [= <-]. reflexivity.
    + cbn [mbind result_bind].
      unfold json_dumps. destruct (first_object _); intros [= <-]. reflexivity.
  - intros [= <-]. revert Hreq. unfold handle_request, py_get. cbn [mbind result_bind].
    destruct (negb (truthy _)); [discriminate|].
    destruct (match dict_get d "method" with Some v0 => v0 | None => PNone end);
      cbn [table_get mbind result_bind];
      try (destruct (table !! _) as [h|]; cbn [mbind result_bind];
           [destruct (h _) as [?|e1]; [|destruct (is_type_error e1)]|]; discriminate);
      try discriminate; intros [= <-]; reflexivity.
Qed.

(** C2, as amended. A request that is a JSON object, on a writable
    connection. When it carries a truthy [request_id]: if the dispatcher
    fails with one of its error envelopes ([no_method], [no_such_method],
    [invalid_arguments], [method_failed]), the answer written is that
    envelope with the request's [request_id] after its two keys; and
    whenever the dispatcher returns a dict, the handler's own result
    included, the answer written is that dict with the key [request_id]
    holding the request's value and every other key as it was. When the
    [request_id] is absent or not truthy, it is not echoed: the answer
    written is the dispatcher's value as it is, an error envelope going
    out with its two keys only. And whatever the [request_id], when a
    statement of the inner [try] raises, the [Server error] envelope
    that ends the session has its two keys only. *)
Theorem request_id_is_echoed_iff_truthy
    (table : gmap string handler) (c : sock) d s :
  json_value (PDict d) = true ->
  running s = true -> writable c s = true ->
  (forall rid,
     dict_get d "request_id" = Some rid -> truthy rid = true ->
     (forall msg,
        handle_request table (PDict d) = Ok (error_envelope msg) ->
        handle_client_turn table c (RecvData (Json (PDict d))) s
        = (Ok tt,
           log (EvSend c (PDict [("success", PBool false); ("error", PStr msg);
                                 ("request_id", rid)]) true) s))
     /\ (forall r,
           handle_request table (PDict d) = Ok (PDict r) -> json_value (PDict r) = true ->
           handle_client_turn table c (RecvData (Json (PDict d))) s
           = (Ok tt, log (EvSend c (PDict (dict_set r "request_id" rid)) true) s)
           /\ dict_get (dict_set r "request_id" rid) "request_id" = Some rid
           /\ (forall k, k <> "request_id" ->
               dict_get (dict_set r "request_id" rid) k = dict_get r k)))
  /\ (truthy (field d "request_id" PNone) = false ->
      (forall v,
         handle_request table (PDict d) = Ok v -> json_value v = true ->
         handle_client_turn table c (RecvData (Json (PDict d))) s
         = (Ok tt, log (EvSend c v true) s))
      /\ (forall msg,
            handle_request table (PDict d) = Ok (error_envelope msg) ->
            handle_client_turn table c (RecvData (Json (PDict d))) s
            = (Ok tt,
               log (EvSend c (PDict [("success", PBool false); ("error", PStr msg)])
                      true) s)))
  /\ (forall e,
        reply_to table (Json (PDict d)) = Raise e ->
        handle_client_turn table c (RecvData (Json (PDict d))) s
        = (Ok tt,
           left c
             (log (EvSend c (PDict [("success", PBool false);
                                    ("error", PStr ("Server error: " +:+ exn_str e))])
                     true) s))).
Proof.
  intros Hd Hrun Hw.
  assert (Hplain : truthy (field d "request_id" PNone) = false ->
            forall v,
              handle_request table (PDict d) = Ok v -> json_value v = true ->
              handle_client_turn table c (RecvData (Json (PDict d))) s
              = (Ok tt, log (EvSend c v true) s)).
  { intros Hfalsy v Hreq Hv. apply turn_reply; try assumption.
    rewrite reply_to_dict, Hreq. unfold attach. rewrite Hfalsy.
    apply json_dumps_ok. assumption. }
  split; [|split].
  - intros rid Hrid Ht.
    assert (Hecho : forall r,
               handle_request table (PDict d) = Ok (PDict r) ->
               json_value (PDict r) = true ->
               handle_client_turn table c (RecvData (Json (PDict d))) s
               = (Ok tt, log (EvSend c (PDict (dict_set r "request_id" rid)) true) s)).
    { intros r Hreq Hr. rewrite (turn_dict_reply table c d r s) by assumption.
      unfold field. rewrite Hrid, Ht. reflexivity. }
    split.
    + intros msg Hreq. apply (Hecho _ Hreq). reflexivity.
    + intros r Hreq Hr. split; [exact (Hecho r Hreq Hr)|]. split.
      * apply dict_get_set.
      * intros k Hk. apply dict_get_set_ne. congruence.
  - intros Hfalsy. split; [exact (Hplain Hfalsy)|].
    intros msg Hreq. apply (Hplain Hfalsy _ Hreq). reflexivity.
  - intros e He. pose proof Hw as [Hc _]%writable_true.
    rewrite (turn_server_error table c _ s e Hrun Hc He
               (reply_to_json_not_decode_error table _ e He)).
    rewrite Hw. reflexivity.
Qed.

Lemma request_id_is_echoed_iff_truthy_witness :
  handle_client_turn sample_table 1%nat
    (RecvData (Json (PDict [("method", PStr "nope"); ("request_id", PStr "abc")])))
    one_client
  = (Ok tt,
     log (EvSend 1%nat
            (PDict [("success", PBool false); ("error", PStr "No such method: 'nope'");
                    ("request_id", PStr "abc")]) true) one_client).
Proof.
  refine (proj1 (proj1 (request_id_is_echoed_iff_truthy sample_table 1%nat
                          [("method", PStr "nope"); ("request_id", PStr "abc")]
                          one_client _ _ _) (PStr "abc") _ _)
            "No such method: 'nope'" _); reflexivity.
Defined.

(** C2 as stated fails twice. A [request_id] that is not truthy (here 0,
    on the failure branch for an unknown method) is not copied into the
    answer; and the [Server error] envelope that ends the session (here
    for a [method] that is a list, which the table cannot look up)
    carries no [request_id] although the request has a truthy one. *)
Lemma request_id_not_echoed :
  let d0 := [("method", PStr "nope"); ("request_id", PInt 0)] in
  let d1 := [("method", PList [PStr "x"]); ("request_id", PStr "abc")] in
  trace (snd (handle_client_turn sample_table 1%nat (RecvData (Json (PDict d0)))
                one_client))
  = [EvSend 1%nat (error_envelope "No such method: 'nope'") true]
  /\ py_get (error_envelope "No such method: 'nope'") "request_id" PNone = Ok PNone
  /\ trace (snd (handle_client_turn sample_table 1%nat (RecvData (Json (PDict d1)))
                   one_client))
     = [EvSend 1%nat (error_envelope "Server error: unhashable type: 'list'") true;
        EvClose 1%nat]
  /\ py_get (error_envelope "Server error: unhashable type: 'list'") "request_id" PNone
     = Ok PNone.
Proof.
  cbv zeta. repeat split; reflexivity.
Qed.

(** C3, as amended. Data received in a running session that
    [json.loads] refuses with a [JSONDecodeError]: the envelope
    [Invalid JSON format] is given to [sendall], once (and written when
    the connection is writable), and, unless that send times out, the
    session ends: the connection is taken out of the registry and
    closed. Data that is not valid UTF-8 ends the session as well, but
    with the envelope [Server error: <detail>]. *)
Theorem invalid_json_ends_session
    (table : gmap string handler) (c : sock) detail s :
  running s = true -> c ∉ closed s ->
  invalid_json = PDict [("success", PBool false); ("error", PStr "Invalid JSON format")]
  /\ (link_of s c <> LinkStalled ->
      exists s',
        handle_client_turn table c (RecvData (NotJson detail)) s = (Ok tt, s')
        /\ trace s' = (trace s ++ [EvSend c invalid_json (writable c s); EvClose c])%list
        /\ c ∈ closed s' /\ serving c s' = false
        /\ client_sockets s' = remove_first c (client_sockets s))
  /\ (exists s',
        handle_client_turn table c (RecvData (NotUtf8 detail)) s = (Ok tt, s')
        /\ trace s'
           = (trace s ++ [EvSend c (server_error detail) (writable c s); EvClose c])%list
        /\ c ∈ closed s' /\ serving c s' = false
        /\ client_sockets s' = remove_first c (client_sockets s)).
Proof.
  intros Hrun Hc. split; [reflexivity|]. split.
  - intros Hlink. exists (left c (log (EvSend c invalid_json (writable c s)) s)). split.
    + unfold handle_client_turn, turn. unfold_m. rewrite Hrun.
      rewrite recv_open by assumption.
      unfold respond. unfold_m. cbn [reply_to loads mbind result_bind].
      cbn [is_json_decode_error exn_cls].
      unfold sendall, writable. rewrite !bool_decide_eq_false_2 by tauto.
      rewrite bool_decide_eq_true_2 by assumption.
      destruct (link_of s c); try contradiction; cbn; rewrite leave_eq; reflexivity.
    + destruct (left_facts c (log (EvSend c invalid_json (writable c s)) s))
        as (Ht & Hcl & Hs & Hcs & _).
      rewrite Ht. cbn [trace log]. rewrite <- app_assoc. auto.
  - exists (left c (log (EvSend c (server_error detail) (writable c s)) s)). split.
    + apply (turn_server_error table c _ s (Exn UnicodeDecodeError detail));
        [assumption | assumption | reflexivity | reflexivity].
    + destruct (left_facts c (log (EvSend c (server_error detail) (writable c s)) s))
        as (Ht & Hcl & Hs & Hcs & _).
      rewrite Ht. cbn [trace log]. rewrite <- app_assoc. auto.
Qed.

Lemma invalid_json_ends_session_witness :
  exists s',
    handle_client_turn sample_table 1%nat
      (RecvData (NotJson "Expecting property name enclosed in double quotes"))
      one_client = (Ok tt, s')
    /\ trace s' = [EvSend 1%nat invalid_json true; EvClose 1%nat]
    /\ client_sockets s' = [].
Proof.
  destruct (invalid_json_ends_session sample_table 1%nat
              "Expecting property name enclosed in double quotes" one_client eq_refl)
    as [_ [H _]]; [set_solver|].
  destruct H as [s' [H [Ht [_ [_ Hcs]]]]]; [discriminate|].
  exists s'. split; [exact H|]. split; [exact Ht | exact Hcs].
Defined.

(** C3 as stated fails on bytes that are not valid UTF-8: [decode]
    raises [UnicodeDecodeError], which is no [JSONDecodeError], and the
    envelope written is not [Invalid JSON format]. *)
Lemma not_utf8_is_a_server_error :
  let detail := "'utf-8' codec can't decode byte 0xff in position 0: invalid start byte" in
  loads (NotUtf8 detail) = Raise (Exn UnicodeDecodeError detail)
  /\ trace (snd (handle_client_turn sample_table 1%nat (RecvData (NotUtf8 detail))
                   one_client))
     = [EvSend 1%nat (error_envelope ("Server error: " +:+ detail)) true; EvClose 1%nat]
  /\ error_envelope ("Server error: " +:+ detail) <> invalid_json.
Proof.
  cbv zeta. repeat split; try reflexivity. discriminate.
Qed.

(** When the send of [Invalid JSON format] times out, the exception
    leaves the [except] clause and meets [except socket.timeout:
    continue]: the session stays in its loop. *)
Example invalid_json_send_times_out :
  let s := Server true [1%nat] [1%nat] (Some 0%nat) ∅ {[ 1%nat := LinkStalled ]}
             {[ 1%nat := Serving ]} Bound true [] in
  handle_client_turn sample_table 1%nat (RecvData (NotJson "Expecting value")) s
  = (Ok tt, log (EvSend 1%nat invalid_json false) s).
Proof. reflexivity. Qed.

(** A session on its own: three requests, three answers in the same
    order, then the peer closes. *)
Example three_requests :
  let ask (m : string) (n : Z) :=
    RecvData (Json (PDict [("method", PStr m); ("request_id", PInt n)])) in
  let s := set_threads {[ 1%nat := Started ]} (set_running true (init Absent true)) in
  trace (snd (handle_client sample_table 1%nat
                [ask "list_updates" 1; RecvTimeout; ask "nope" 2; ask "" 3; RecvEmpty;
                 ask "list_updates" 4] s))
  = [EvSend 1%nat
       (PDict [("success", PBool true); ("updates", PStr "pkgA 1.0->1.1");
               ("request_id", PInt 1)]) true;
     EvSend 1%nat
       (PDict [("success", PBool false); ("error", PStr "No such method: 'nope'");
               ("request_id", PInt 2)]) true;
     EvSend 1%nat
       (PDict [("success", PBool false); ("error", PStr "No 'method' provided.");
               ("request_id", PInt 3)]) true;
     EvClose 1%nat].
Proof. cbv zeta. reflexivity. Qed.

(** An error envelope of the dispatcher is written, with the request's
    [request_id] when that is truthy, and the session goes on. *)
Lemma turn_envelope (table : gmap string handler) (c : sock) d msg s :
  json_value (PDict d) = true ->
  handle_request table (PDict d) = Ok (error_envelope msg) ->
  running s = true -> writable c s = true ->
  exists reply s',
    attach (field d "request_id" PNone) (error_envelope msg) = Ok reply
    /\ handle_client_turn table c (RecvData (Json (PDict d))) s = (Ok tt, s')
    /\ trace s' = (trace s ++ [EvSend c reply true])%list
    /\ closed s' = closed s
    /\ threads s' = threads s
    /\ client_sockets s' = client_sockets s
    /\ running s' = true.
Proof.
  intros Hd Hreq Hrun Hw.
  eexists. eexists. split; [apply attach_dict|]. split.
  - apply (turn_dict_reply table c d [("success", PBool false); ("error", PStr msg)] s);
      try assumption. reflexivity.
  - cbn. auto.
Qed.

(** C4. A request that is a JSON object whose [method] is absent or the
    empty string: the dispatcher returns exactly the envelope
    [No 'method' provided.]; on a writable connection the session writes
    it (with the request's [request_id] when that is truthy), closes
    nothing and stays in its loop. *)
Theorem no_method_is_recoverable
    (table : gmap string handler) (c : sock) d s :
  json_value (PDict d) = true ->
  dict_get d "method" = None \/ dict_get d "method" = Some (PStr "") ->
  running s = true -> writable c s = true ->
  handle_request table (PDict d)
  = Ok (PDict [("success", PBool false); ("error", PStr "No 'method' provided.")])
  /\ exists reply s',
       attach (field d "request_id" PNone) no_method = Ok reply
       /\ handle_client_turn table c (RecvData (Json (PDict d))) s = (Ok tt, s')
       /\ trace s' = (trace s ++ [EvSend c reply true])%list
       /\ closed s' = closed s
       /\ threads s' = threads s
       /\ client_sockets s' = client_sockets s
       /\ running s' = true.
Proof.
  intros Hd Hm Hrun Hw.
  assert (Hreq : handle_request table (PDict d) = Ok no_method).
  { apply handle_request_falsy_method. unfold field.
    destruct Hm as [-> | ->]; reflexivity. }
  split; [exact Hreq|].
  apply (turn_envelope table c d "No 'method' provided." s); assumption.
Qed.

Lemma no_method_is_recoverable_witness :
  handle_request sample_table (PDict [("args", PList []); ("request_id", PStr "r7")])
  = Ok (PDict [("success", PBool false); ("error", PStr "No 'method' provided.")])
  /\ exists s',
       handle_client_turn sample_table 1%nat
         (RecvData (Json (PDict [("args", PList []); ("request_id", PStr "r7")])))
         one_client = (Ok tt, s')
       /\ trace s'
          = [EvSend 1%nat
               (PDict [("success", PBool false); ("error", PStr "No 'method' provided.");
                       ("request_id", PStr "r7")]) true]
       /\ threads s' = threads one_client.
Proof.
  destruct (no_method_is_recoverable sample_table 1%nat
              [("args", PList []); ("request_id", PStr "r7")] one_client
              eq_refl (or_introl eq_refl) eq_refl eq_refl)
    as [H1 [reply [s' [Ha [Ht [Htr [_ [Hth _]]]]]]]].
  split; [exact H1|]. exists s'. split; [exact Ht|]. split; [|exact Hth].
  rewrite Htr. injection Ha as <-. reflexivity.
Defined.

(** The two error envelopes for a failed handler never coincide. *)
Lemma failure_shapes_differ args m detail m' detail' :
  invalid_arguments args m detail <> method_failed m' detail'.
Proof. unfold invalid_arguments, method_failed, error_envelope. intros [=]. Qed.

(** C5. When the handler of a registered method raises, the dispatcher
    returns one of two envelopes: for a [TypeError],
    [Invalid arguments '<args>' for method '<method>': <detail>], for
    any other exception, [Method '<method>' failed: <detail>]; the two
    never coincide. On a writable connection the session writes the
    envelope (with the request's [request_id] when that is truthy),
    closes nothing and stays in its loop. *)
Theorem handler_failures_are_classified
    (table : gmap string handler) (c : sock) d m h e s :
  json_value (PDict d) = true ->
  dict_get d "method" = Some (PStr m) -> m <> "" -> table !! m = Some h ->
  h (field d "args" (PList [])) = Raise e ->
  running s = true -> writable c s = true ->
  let envelope :=
    error_envelope
      (if is_type_error e
       then "Invalid arguments '" +:+ py_str (field d "args" (PList []))
              +:+ "' for method '" +:+ m +:+ "': " +:+ exn_str e
       else "Method '" +:+ m +:+ "' failed: " +:+ exn_str e) in
  handle_request table (PDict d) = Ok envelope
  /\ (forall a1 m1 d1 m2 d2, invalid_arguments a1 m1 d1 <> method_failed m2 d2)
  /\ exists reply s',
       attach (field d "request_id" PNone) envelope = Ok reply
       /\ handle_client_turn table c (RecvData (Json (PDict d))) s = (Ok tt, s')
       /\ trace s' = (trace s ++ [EvSend c reply true])%list
       /\ closed s' = closed s
       /\ threads s' = threads s
       /\ client_sockets s' = client_sockets s
       /\ running s' = true.
Proof.
  intros Hd Hm Hne Hh He Hrun Hw envelope.
  assert (Hreq : handle_request table (PDict d) = Ok envelope).
  { rewrite (handle_request_invokes table d m h) by assumption. rewrite He.
    subst envelope. destruct (is_type_error e); reflexivity. }
  split; [exact Hreq|]. split; [intros; apply failure_shapes_differ|].
  apply (turn_envelope table c d _ s); assumption.
Qed.

Lemma handler_failures_are_classified_witness :
  handle_request sample_table
    (PDict [("method", PStr "list_updates"); ("args", PList [PInt 1; PStr "a"])])
  = Ok (error_envelope
          "Invalid arguments '[1, 'a']' for method 'list_updates': list_updates() takes 0 positional arguments but 2 were given")
  /\ handle_request (METHODS (RunFailed (Exn OSError "[Errno 2] No such file or directory: 'pacman'"))
                       (Completed ""))
       (PDict [("method", PStr "list_updates")])
     = Ok (error_envelope
             "Method 'list_updates' failed: [Errno 2] No such file or directory: 'pacman'").
Proof.
  split.
  - refine (proj1 (handler_failures_are_classified sample_table 1%nat
                     [("method", PStr "list_updates"); ("args", PList [PInt 1; PStr "a"])]
                     "list_updates" (list_updates (Completed "") (Completed "pkgA 1.0->1.1"))
                     (Exn TypeError "list_updates() takes 0 positional arguments but 2 were given")
                     one_client _ _ _ _ _ _ _));
      try reflexivity. discriminate.
  - refine (proj1 (handler_failures_are_classified _ 1%nat
                     [("method", PStr "list_updates")] "list_updates"
                     (list_updates (RunFailed (Exn OSError "[Errno 2] No such file or directory: 'pacman'"))
                        (Completed ""))
                     (Exn OSError "[Errno 2] No such file or directory: 'pacman'")
                     one_client _ _ _ _ _ _ _));
      try reflexivity. discriminate.
Defined.

(** ** The [Server error] envelope *)

(** It differs from every other envelope of the server. *)
Lemma server_error_is_distinct detail :
  server_error detail <> invalid_json
  /\ server_error detail <> no_method
  /\ server_error detail <> shutdown_notice
  /\ (forall m, server_error detail <> no_such_method m)
  /\ (forall a m d, server_error detail <> invalid_arguments a m d)
  /\ (forall m d, server_error detail <> method_failed m d).
Proof.
  unfold server_error, invalid_json, no_method, shutdown_notice, no_such_method,
    invalid_arguments, method_failed, error_envelope.
  repeat split; intros; intros [=].
Qed.

(** C10, as amended. In a running session with an open connection, each
    of these ends the turn with a [Server error: <detail>] envelope
    (sent with its failure ignored) and then the session, whose
    connection is closed: a request that is JSON but no object; a
    handler result that cannot take the truthy [request_id] of the
    request because it is no dict; a handler result that [json.dumps]
    refuses, the [request_id] of the request not being truthy; a dict
    returned by the handler that [json.dumps] refuses once the truthy
    [request_id] is in it. The envelope differs from all the others. *)
Theorem server_error_ends_session (table : gmap string handler) (c : sock) s :
  running s = true -> c ∉ closed s ->
  (forall v, (forall d, v <> PDict d) -> ends_with_server_error table c (Json v) s)
  /\ (forall d m h v,
        dict_get d "method" = Some (PStr m) -> m <> "" -> table !! m = Some h ->
        h (field d "args" (PList [])) = Ok v ->
        (truthy (field d "request_id" PNone) = true /\ (forall r, v <> PDict r))
        \/ (truthy (field d "request_id" PNone) = false /\ json_value v = false)
        \/ (truthy (field d "request_id" PNone) = true
            /\ exists r, v = PDict r
               /\ json_value (PDict (dict_set r "request_id" (field d "request_id" PNone)))
                  = false) ->
        ends_with_server_error table c (Json (PDict d)) s)
  /\ (forall p, ends_with_server_error table c p s ->
        exists detail s',
          handle_client_turn table c (RecvData p) s = (Ok tt, s')
          /\ trace s'
             = (trace s ++ [EvSend c (server_error detail) (writable c s); EvClose c])%list
          /\ c ∈ closed s' /\ serving c s' = false
          /\ server_error detail <> invalid_json
          /\ server_error detail <> no_method
          /\ server_error detail <> shutdown_notice
          /\ (forall m, server_error detail <> no_such_method m)
          /\ (forall a m d, server_error detail <> invalid_arguments a m d)
          /\ (forall m d, server_error detail <> method_failed m d)).
Proof.
  intros Hrun Hc. split; [|split].
  - intros v Hv. eexists.
    apply (turn_server_error table c _ s _ Hrun Hc (reply_to_non_dict table v Hv)).
    reflexivity.
  - intros d m h v Hm Hne Hh Hv Hcase.
    assert (Hreq : handle_request table (PDict d) = Ok v).
    { rewrite (handle_request_invokes table d m h) by assumption. rewrite Hv. reflexivity. }
    assert (exists detail, reply_to table (Json (PDict d)) = Raise (Exn TypeError detail))
      as [detail Hr].
    { rewrite reply_to_dict, Hreq. unfold attach.
      destruct Hcase as [[Ht Hnd] | [[Ht Hj] | [Ht [r [-> Hj]]]]]; rewrite Ht.
      - destruct v; try (eexists; reflexivity). destruct (Hnd d0 eq_refl).
      - apply json_dumps_refused. assumption.
      - cbn [setitem]. apply json_dumps_refused. assumption. }
    exists detail.
    apply (turn_server_error table c _ s _ Hrun Hc Hr). reflexivity.
  - intros p [detail H]. exists detail. eexists. split; [exact H|].
    destruct (left_facts c (log (EvSend c (server_error detail) (writable c s)) s))
      as [Ht [Hcl [Hs _]]].
    split; [rewrite Ht; cbn; rewrite <- app_assoc; reflexivity|].
    split; [exact Hcl|]. split; [exact Hs|].
    apply server_error_is_distinct.
Qed.

Lemma server_error_ends_session_witness :
  ends_with_server_error sample_table 1%nat (Json (PList [PInt 1; PInt 2])) one_client
  /\ ends_with_server_error ping_table 1%nat
       (Json (PDict [("method", PStr "ping"); ("request_id", PStr "abc")])) one_client.
Proof.
  split.
  - refine (proj1 (server_error_ends_session sample_table 1%nat one_client eq_refl _) _ _).
    + set_solver.
    + intros d. discriminate.
  - refine (proj1 (proj2 (server_error_ends_session ping_table 1%nat one_client eq_refl _))
              [("method", PStr "ping"); ("request_id", PStr "abc")] "ping"
              (fun _ => Ok (PList [PStr "pong"])) (PList [PStr "pong"])
              eq_refl _ eq_refl eq_refl _).
    + set_solver.
    + discriminate.
    + left. split; [reflexivity|]. intros r. discriminate.
Defined.

(** C10 as stated fails for a handler result that cannot take a
    [request_id] key when the request brings none: the list goes out as
    it is, no [Server error] is sent, and the session goes on. *)
Lemma list_result_without_request_id :
  let d := [("method", PStr "ping")] in
  handle_request ping_table (PDict d) = Ok (PList [PStr "pong"])
  /\ (exists detail,
        setitem (PList [PStr "pong"]) "request_id" (PStr "abc")
        = Raise (Exn TypeError detail))
  /\ handle_client_turn ping_table 1%nat (RecvData (Json (PDict d))) one_client
     = (Ok tt, log (EvSend 1%nat (PList [PStr "pong"]) true) one_client)
  /\ serving 1%nat (log (EvSend 1%nat (PList [PStr "pong"]) true) one_client) = true.
Proof.
  cbv zeta. repeat split; try reflexivity. eexists. reflexivity.
Qed.

(** ** The connection registry at shutdown *)

Lemma disconnect_client_eq c s : disconnect_client c s = (Ok tt, disconnected c s).
Proof.
  unfold disconnect_client, drain, disconnected. unfold_m.
  unfold sendall, settimeout, recv, close, writable.
  destruct (bool_decide (c ∈ closed s)) eqn:E.
  - rewrite bool_decide_eq_false_2; [reflexivity|].
    apply bool_decide_eq_true in E. intros H. exact (H E).
  - rewrite bool_decide_eq_true_2 by (apply bool_decide_eq_false in E; exact E).
    destruct (link_of s c); cbn; rewrite ?E; cbn; rewrite ?E; reflexivity.
Qed.

Lemma for_each_disconnect l s :
  for_each disconnect_client l s
  = (Ok tt, fold_left (fun s c => disconnected c s) l s).
Proof.
  revert s. induction l as [|c l IH]; intros s; [reflexivity|].
  cbn [for_each fold_left]. unfold mbind, M_bind.
  rewrite disconnect_client_eq. apply IH.
Qed.

Lemma disconnect_all_clients_eq s :
  disconnect_all_clients s
  = (Ok tt,
     set_client_sockets [] (fold_left (fun s c => disconnected c s) (client_sockets s) s)).
Proof.
  unfold disconnect_all_clients. unfold_m. rewrite for_each_disconnect. reflexivity.
Qed.

(** What the loop leaves alone. *)
Lemma disconnected_frame l s :
  let s' := fold_left (fun s c => disconnected c s) l s in
  running s' = running s /\ client_sockets s' = client_sockets s
  /\ client_threads s' = client_threads s /\ server_socket s' = server_socket s
  /\ link s' = link s /\ threads s' = threads s
  /\ path s' = path s /\ dir_writable s' = dir_writable s.
Proof.
  revert s. induction l as [|c l IH]; intros s; cbn; [repeat split|].
  destruct (IH (disconnected c s)) as (? & ? & ? & ? & ? & ? & ? & ?).
  repeat split; assumption.
Qed.

Lemma disconnected_closed l s :
  closed (fold_left (fun s c => disconnected c s) l s) = list_to_set l ∪ closed s.
Proof.
  revert s. induction l as [|c l IH]; intros s; cbn [fold_left list_to_set].
  - set_solver.
  - rewrite IH. cbn. set_solver.
Qed.

Lemma writable_disconnected_ne c x s :
  c <> x -> writable c (disconnected x s) = writable c s.
Proof.
  intros Hne. unfold writable, link_of. cbn. f_equal.
  apply bool_decide_ext. set_solver.
Qed.

(** The calls the loop makes: for each client of the list, nothing on
    its socket before the notice, and the close right after the notice. *)
Lemma disconnected_trace l s :
  exists calls,
    trace (fold_left (fun s c => disconnected c s) l s) = (trace s ++ calls)%list
    /\ forall c, c ∈ l ->
         exists before after,
           calls = (before ++ [EvSend c shutdown_notice (writable c s); EvClose c]
                      ++ after)%list
           /\ forall ev, ev ∈ before -> on_sock ev <> c.
Proof.
  revert s. induction l as [|x l IH]; intros s.
  - exists []. split; [cbn; rewrite app_nil_r; reflexivity|].
    intros c Hc. inversion Hc.
  - destruct (IH (disconnected x s)) as [calls [Ht Hin]].
    exists ([EvSend x shutdown_notice (writable x s); EvClose x] ++ calls)%list.
    split.
    + cbn [fold_left]. rewrite Ht. cbn. rewrite <- !app_assoc. reflexivity.
    + intros c Hc. destruct (decide (c = x)) as [->|Hne].
      * exists [], calls. split; [reflexivity|]. intros ev Hev. inversion Hev.
      * apply elem_of_cons in Hc as [Hc|Hc]; [contradiction|].
        destruct (Hin c Hc) as [before [after [Hcalls Hbefore]]].
        exists ([EvSend x shutdown_notice (writable x s); EvClose x] ++ before)%list, after.
        split.
        -- rewrite Hcalls, writable_disconnected_ne by assumption.
           rewrite <- !app_assoc. reflexivity.
        -- intros ev Hev. apply elem_of_app in Hev as [Hev|Hev]; [|auto].
           apply elem_of_cons in Hev as [->|Hev]; [cbn; congruence|].
           apply elem_of_cons in Hev as [->|Hev]; [cbn; congruence|].
           inversion Hev.
Qed.

(** C6. [disconnect_all_clients] works on the list of registered
    connections as it is when it starts. For every connection of that
    list the shutdown notice is given to [sendall] (and written when the
    connection is writable), no call on that socket comes before it, and
    the [close] of the socket comes right after; the operation raises
    nothing, every connection of the list ends closed, and the registry
    ends empty. *)
Theorem shutdown_notice_before_close s :
  shutdown_notice
  = PDict [("success", PBool false); ("error", PStr "Server shutting down");
           ("shutdown", PBool true)]
  /\ exists s' calls,
       disconnect_all_clients s = (Ok tt, s')
       /\ trace s' = (trace s ++ calls)%list
       /\ client_sockets s' = []
       /\ forall c, c ∈ client_sockets s ->
            c ∈ closed s'
            /\ exists before after,
                 calls = (before ++ [EvSend c shutdown_notice (writable c s); EvClose c]
                            ++ after)%list
                 /\ forall ev, ev ∈ before -> on_sock ev <> c.
Proof.
  split; [reflexivity|].
  destruct (disconnected_trace (client_sockets s) s) as [calls [Ht Hin]].
  eexists. exists calls. split; [apply disconnect_all_clients_eq|].
  split; [exact Ht|]. split; [reflexivity|].
  intros c Hc. split; [|exact (Hin c Hc)].
  cbn. rewrite disconnected_closed. set_solver.
Qed.

(** Two registered clients: each gets the notice, then its close. *)
Example shutdown_two_clients :
  let s := Server true [1%nat; 2%nat] [1%nat; 2%nat] (Some 0%nat) ∅ ∅
             {[ 1%nat := Serving; 2%nat := Serving ]} Bound true [] in
  trace (snd (disconnect_all_clients s))
  = [EvSend 1%nat shutdown_notice true; EvClose 1%nat;
     EvSend 2%nat shutdown_notice true; EvClose 2%nat]
  /\ client_sockets (snd (disconnect_all_clients s)) = [].
Proof. cbv zeta. split; reflexivity. Qed.

Lemma set_running_same s : running s = false -> set_running false s = s.
Proof. destruct s; cbn. intros ->. reflexivity. Qed.

Lemma set_client_sockets_same s : client_sockets s = [] -> set_client_sockets [] s = s.
Proof. destruct s; cbn. intros ->. reflexivity. Qed.

(** C7. [shutdown] twice in a row: neither call raises, and the second
    changes nothing: it finds the registry empty, makes no call on any
    socket (no second notice, no second close), and leaves the state
    the first call left. *)
Theorem shutdown_is_idempotent s :
  exists s1,
    shutdown s = (Ok tt, s1)
    /\ shutdown s1 = (Ok tt, s1)
    /\ running s1 = false
    /\ client_sockets s1 = []
    /\ trace (snd (shutdown s1)) = trace s1.
Proof.
  assert (H1 : forall s, exists s1,
             shutdown s = (Ok tt, s1) /\ running s1 = false /\ client_sockets s1 = []).
  { intros s0. unfold shutdown. unfold_m. rewrite disconnect_all_clients_eq.
    eexists. split; [reflexivity|]. split; [|reflexivity].
    cbn. destruct (disconnected_frame (client_sockets s0) (set_running false s0))
      as [Hr _]. cbn in Hr. exact Hr. }
  destruct (H1 s) as [s1 [Hs [Hr Hc]]].
  assert (H2 : shutdown s1 = (Ok tt, s1)).
  { unfold shutdown. unfold_m. rewrite disconnect_all_clients_eq.
    rewrite (set_running_same s1 Hr), Hc. cbn [fold_left].
    rewrite (set_client_sockets_same s1 Hc). reflexivity. }
  exists s1. rewrite H2. auto.
Qed.

Example shutdown_twice_two_clients :
  let s := Server true [1%nat; 2%nat] [1%nat; 2%nat] (Some 0%nat) ∅ ∅
             {[ 1%nat := Serving; 2%nat := Serving ]} Bound true [] in
  trace (snd (shutdown (snd (shutdown s))))
  = [EvSend 1%nat shutdown_notice true; EvClose 1%nat;
     EvSend 2%nat shutdown_notice true; EvClose 2%nat].
Proof. cbv zeta. reflexivity. Qed.

(** ** Statements that only write to the trace *)

Lemma same_but_trace_refl s : same_but_trace s s.
Proof. repeat split. Qed.

Lemma same_but_trace_trans s1 s2 s3 :
  same_but_trace s1 s2 -> same_but_trace s2 s3 -> same_but_trace s1 s3.
Proof.
  unfold same_but_trace.
  intros (? & ? & ? & ? & ? & ? & ? & ? & ?) (? & ? & ? & ? & ? & ? & ? & ? & ?).
  repeat split; congruence.
Qed.

Lemma traces_only_ret {A : Type} (a : A) : traces_only (mret a).
Proof. intros s. apply same_but_trace_refl. Qed.

Lemma traces_only_lift {A : Type} (r : result A) : traces_only (lift r).
Proof. intros s. apply same_but_trace_refl. Qed.

Lemma traces_only_bind {A B : Type} (m : M A) (k : A -> M B) :
  traces_only m -> (forall a, traces_only (k a)) -> traces_only (m ≫= k).
Proof.
  intros Hm Hk s. unfold mbind, M_bind. specialize (Hm s).
  destruct (m s) as [[a|e] s1]; cbn in *; [|exact Hm].
  eapply same_but_trace_trans; [exact Hm | apply Hk].
Qed.

Lemma traces_only_try_except {A : Type} (body : M A) clauses :
  traces_only body ->
  (forall e h, clauses e = Some h -> traces_only h) ->
  traces_only (try_except body clauses).
Proof.
  intros Hb Hc s. unfold try_except. specialize (Hb s).
  destruct (body s) as [[a|e] s1]; cbn in *; [exact Hb|].
  destruct (clauses e) as [h|] eqn:E; [|exact Hb].
  eapply same_but_trace_trans; [exact Hb | exact (Hc e h E s1)].
Qed.

Lemma traces_only_sendall c msg : traces_only (sendall c msg).
Proof.
  intros s. unfold sendall.
  destruct (bool_decide (c ∈ closed s)); [repeat split|].
  destruct (link_of s c); repeat split.
Qed.

Lemma traces_only_recv c r : traces_only (recv c r).
Proof.
  intros s. unfold recv.
  destruct (bool_decide (c ∈ closed s)); [repeat split|].
  destruct r; repeat split.
Qed.

Section Effects.

Variable table : gmap string handler.

Lemma traces_only_respond c p : traces_only (respond table c p).
Proof.
  unfold respond. apply traces_only_try_except.
  - apply traces_only_bind; [apply traces_only_lift|]. intros v.
    apply traces_only_bind; [apply traces_only_sendall|]. intros _.
    apply traces_only_ret.
  - intros e h. destruct (is_json_decode_error e); intros [= <-].
    + apply traces_only_bind; [apply traces_only_sendall|]. intros _.
      apply traces_only_ret.
    + apply traces_only_bind; [|intros _; apply traces_only_ret].
      apply traces_only_try_except; [apply traces_only_sendall|].
      intros e' h' [= <-]. apply traces_only_ret.
Qed.

Lemma traces_only_turn c r : traces_only (turn table c r).
Proof.
  unfold turn. apply traces_only_try_except.
  - apply traces_only_bind; [apply traces_only_recv|].
    intros [p|]; [apply traces_only_respond | apply traces_only_ret].
  - intros e h. destruct (is_socket_timeout e); [intros [= <-]; apply traces_only_ret|].
    destruct (is_socket_error e); [intros [= <-]; apply traces_only_ret | discriminate].
Qed.

(** One turn of a session: calls are added to the trace, and either the
    session stays in its loop or its [finally] block runs. *)
Lemma handle_client_turn_effect c r s :
  exists s1,
    same_but_trace s s1
    /\ (handle_client_turn table c r s = (Ok tt, s1)
        \/ handle_client_turn table c r s = (Ok tt, left c s1)).
Proof.
  unfold handle_client_turn. unfold_m. destruct (running s).
  - pose proof (traces_only_turn c r s) as H.
    destruct (turn table c r s) as [[[|]|e] s1]; cbn in H; exists s1;
      (split; [exact H|]); rewrite ?leave_eq; auto.
  - exists s. split; [apply same_but_trace_refl|]. right. apply leave_eq.
Qed.

End Effects.

(** ** The registry and the sessions *)

Lemma elem_of_remove_first c x l : x ∈ remove_first c l -> x ∈ l.
Proof.
  induction l as [|y l IH]; cbn; [auto|].
  destruct (bool_decide (c = y)); intros H; [set_solver|].
  apply elem_of_cons in H as [->|H]; set_solver.
Qed.

Lemma elem_of_remove_first_ne c x l : x <> c -> x ∈ l -> x ∈ remove_first c l.
Proof.
  intros Hne. induction l as [|y l IH]; cbn; [auto|].
  intros H. apply elem_of_cons in H as [->|H].
  - rewrite bool_decide_eq_false_2 by congruence. set_solver.
  - destruct (bool_decide (c = y)); [assumption | set_solver].
Qed.

Lemma NoDup_remove_first c l : NoDup l -> NoDup (remove_first c l).
Proof.
  induction 1 as [|y l Hy Hl IH]; cbn; [constructor|].
  destruct (bool_decide (c = y)); [assumption|].
  constructor; [|assumption]. intros H. apply Hy. eapply elem_of_remove_first, H.
Qed.

Lemma not_elem_of_remove_first c l : NoDup l -> c ∉ remove_first c l.
Proof.
  induction 1 as [|y l Hy Hl IH]; cbn; [set_solver|].
  destruct (bool_decide (c = y)) eqn:E.
  - apply bool_decide_eq_true in E. subst. assumption.
  - apply bool_decide_eq_false in E. set_solver.
Qed.

Lemma registry_ok_same s s' : same_but_trace s s' -> registry_ok s -> registry_ok s'.
Proof.
  intros (Hr & Hc & _ & _ & _ & _ & Ht & _) H.
  unfold registry_ok. rewrite Hr, Hc, Ht. exact H.
Qed.

Lemma registry_ok_left c s : registry_ok s -> registry_ok (left c s).
Proof.
  intros (Hnd & Hin & Hall). unfold registry_ok. cbn. split; [|split].
  - apply NoDup_remove_first. assumption.
  - intros x Hx.
    assert (x <> c) by (intros ->; exact (not_elem_of_remove_first c _ Hnd Hx)).
    rewrite lookup_insert_ne by congruence. apply Hin. eapply elem_of_remove_first, Hx.
  - intros Hrun x Hx.
    assert (x <> c) by (intros ->; rewrite lookup_insert_eq in Hx; discriminate).
    rewrite lookup_insert_ne in Hx by congruence.
    apply elem_of_remove_first_ne; auto.
Qed.

Lemma registry_ok_enter c s :
  started c s = true -> registry_ok s -> registry_ok (snd (enter c s)).
Proof.
  unfold started. rewrite bool_decide_eq_true.
  intros Hst (Hnd & Hin & Hall).
  unfold registry_ok, enter, register, set_phase. unfold_m. fields.
  split; [|split].
  - apply NoDup_app. split; [assumption|]. split; [|apply NoDup_singleton].
    intros x Hx Hc. apply list_elem_of_singleton in Hc. subst.
    specialize (Hin _ Hx). congruence.
  - intros x Hx. apply elem_of_app in Hx as [Hx|Hx].
    + destruct (decide (c = x)) as [->|]; [apply lookup_insert_eq|].
      rewrite lookup_insert_ne by assumption. auto.
    + apply list_elem_of_singleton in Hx. subst. apply lookup_insert_eq.
  - intros Hrun x Hx. apply elem_of_app.
    destruct (decide (c = x)) as [->|]; [right; set_solver|].
    rewrite lookup_insert_ne in Hx by assumption. left. auto.
Qed.

Lemma registry_ok_spawn c s :
  fresh c s = true -> registry_ok s -> registry_ok (snd (spawn c s)).
Proof.
  unfold fresh. rewrite andb_true_iff, !bool_decide_eq_true.
  intros [Hfr _] (Hnd & Hin & Hall).
  unfold registry_ok, spawn, set_phase. unfold_m. fields.
  split; [|split].
  - assumption.
  - intros x Hx. specialize (Hin _ Hx).
    rewrite lookup_insert_ne by congruence. assumption.
  - intros Hrun x Hx.
    assert (c <> x) by (intros ->; rewrite lookup_insert_eq in Hx; discriminate).
    rewrite lookup_insert_ne in Hx by assumption. auto.
Qed.

Lemma registry_ok_cleared s :
  running s = false -> client_sockets s = [] -> registry_ok s.
Proof.
  intros Hr Hc. unfold registry_ok. rewrite Hr, Hc.
  split; [constructor|]. split; [intros c H; inversion H | discriminate].
Qed.

Lemma shutdown_spec s :
  exists s1,
    shutdown s = (Ok tt, s1) /\ running s1 = false /\ client_sockets s1 = []
    /\ threads s1 = threads s /\ path s1 = path s /\ dir_writable s1 = dir_writable s.
Proof.
  unfold shutdown. unfold_m. rewrite disconnect_all_clients_eq.
  eexists. split; [reflexivity|].
  destruct (disconnected_frame (client_sockets s) (set_running false s))
    as (Hr & _ & _ & _ & _ & Ht & Hp & Hd).
  fields. cbn in Hr, Ht, Hp, Hd. auto.
Qed.

Lemma cleanup_spec s :
  exists s',
    cleanup s = (Ok tt, s') /\ running s' = false /\ client_sockets s' = []
    /\ threads s' = threads s /\ dir_writable s' = dir_writable s
    /\ path s' = if removable s then Absent else path s.
Proof.
  unfold cleanup. unfold_m. rewrite disconnect_all_clients_eq.
  destruct (disconnected_frame (client_sockets s) (set_running false s))
    as (Hr & _ & _ & Hl & _ & Ht & Hp & Hd).
  cbn in Hr, Hl, Ht, Hp, Hd. fields.
  remember (fold_left (fun s c => disconnected c s) (client_sockets s)
              (set_running false s)) as s1 eqn:E.
  clear E. unfold path_exists, unlink, close, get. fields. rewrite Hl.
  destruct (server_socket s) as [l|]; fields; rewrite Hp;
    unfold removable; destruct (path s) eqn:Ep; cbn [occupied]; fields;
    rewrite ?Hp, ?Hd; destruct (dir_writable s) eqn:Ew;
    eexists; (split; [reflexivity|]); fields; rewrite ?Hr, ?Ht, ?Hd, ?Hp; auto.
Qed.

Section Running.

Variable table : gmap string handler.

Lemma registry_ok_step b s :
  enabled (Async b) s = true -> registry_ok s -> registry_ok (snd (step table b s)).
Proof.
  intros Hen Hok. destruct b as [|c|c r|c l]; cbn [step].
  - destruct (shutdown_spec s) as (s1 & -> & Hr & Hc & _). apply registry_ok_cleared; assumption.
  - apply registry_ok_enter; assumption.
  - destruct (handle_client_turn_effect table c r s) as (s1 & Hs & [-> | ->]); cbn [snd].
    + eapply registry_ok_same; eassumption.
    + apply registry_ok_left. eapply registry_ok_same; eassumption.
  - exact Hok.
Qed.

Lemma registry_ok_accept_turn a s :
  enabled (Accept a) s = true -> registry_ok s ->
  registry_ok (snd (accept_turn a s)).
Proof.
  intros Hen Hok. unfold accept_turn, accept. unfold_m.
  destruct (server_socket s) as [l|]; [|exact Hok].
  destruct (bool_decide (l ∈ closed s)); [exact Hok|].
  destruct a as [| detail | c]; try exact Hok.
  pose proof (registry_ok_spawn c s Hen Hok) as H.
  unfold spawn, set_phase, modify, mbind, M_bind in *.
  cbv beta iota in *. exact H.
Qed.

(** The accept loop, with the sessions and signals around it, keeps the
    registry and the sessions in agreement. *)
Lemma registry_ok_accept_loop sched s :
  registry_ok s -> registry_ok (snd (accept_loop table sched s)).
Proof.
  revert s. induction sched as [|ev sched IH]; intros s Hok.
  - cbn. exact Hok.
  - cbn [accept_loop]. unfold_m. destruct (enabled ev s) eqn:Hen; [|apply IH, Hok].
    destruct ev as [a|b].
    + destruct (running s); [|exact Hok].
      pose proof (registry_ok_accept_turn a s Hen Hok) as H.
      destruct (accept_turn a s) as [[[|]|e] s1]; cbn [snd] in *;
        [apply IH, H | exact H | exact H].
    + pose proof (registry_ok_step b s Hen Hok) as H.
      destruct (step table b s) as [[[]|e] s1]; cbn [snd] in *; [apply IH, H | exact H].
Qed.

(** [start], by how the opening of the listener and the accept loop end. *)
Lemma start_eq e sched s :
  start table e sched s
  = match open_listener e s with
    | (Raise _, s0) => (Ok (Some 1), snd (cleanup s0))
    | (Ok _, s0) =>
        match accept_loop table sched s0 with
        | (Ok true, s1) => (Ok (Some 0), snd (cleanup s1))
        | (Ok false, s1) => (Ok None, s1)
        | (Raise _, s1) => (Ok (Some 1), snd (cleanup s1))
        end
    end.
Proof.
  unfold start. unfold_m.
  destruct (open_listener e s) as [[[]|err] s0].
  - destruct (accept_loop table sched s0) as [[[|]|err] s1]; try reflexivity;
      destruct (cleanup_spec s1) as (s' & -> & _); reflexivity.
  - destruct (cleanup_spec s0) as (s' & -> & _). reflexivity.
Qed.

End Running.

(** The statements before the accept loop leave the registry and the
    threads alone. *)
Lemma open_listener_frame e s :
  client_sockets (snd (open_listener e s)) = client_sockets s
  /\ threads (snd (open_listener e s)) = threads s
  /\ dir_writable (snd (open_listener e s)) = dir_writable s.
Proof.
  unfold open_listener, path_exists, unlink, create_socket, bind, listen,
    set_socket_permissions.
  unfold_m. destruct s as [r cs ct ss cl li th p w tr]. fields.
  destruct p, w, (new_socket e), (path_usable e), (listen_ok e), (permissions_ok e);
    cbn; auto.
Qed.

(** When opening the listener fails, the socket file of this server is
    there only if its directory is writable, and no directory has come
    to the path. *)
Lemma open_listener_raise e s err s0 :
  path s <> Bound -> open_listener e s = (Raise err, s0) ->
  dir_writable s0 = dir_writable s
  /\ (path s0 = Bound -> dir_writable s0 = true)
  /\ (path s <> Directory -> path s0 <> Directory).
Proof.
  unfold open_listener, path_exists, unlink, create_socket, bind, listen,
    set_socket_permissions.
  unfold_m. destruct s as [r cs ct ss cl li th p w tr]. fields.
  intros Hp.
  destruct p, w, (new_socket e), (path_usable e), (listen_ok e), (permissions_ok e);
    cbn; try congruence; intros [= <- <-]; cbn; repeat split; congruence.
Qed.

(** ** Start-up failures *)

(** C8. When a statement of [start] before the accept loop raises (the
    old file cannot be removed, no socket can be made, [bind] or
    [listen] fails), [start] returns 1 and its [finally] clause has run
    [cleanup], the teardown of every other way out of [start]: the
    server is not running, the registry is empty, and the socket file
    made by this server is not at the socket path; the path is free if
    its directory is writable and no directory stood there. *)
Theorem startup_failure_is_cleaned_up
    (table : gmap string handler) e sched s err s0 :
  path s <> Bound ->
  open_listener e s = (Raise err, s0) ->
  exists s',
    start table e sched s = (Ok (Some 1), s')
    /\ cleanup s0 = (Ok tt, s')
    /\ path s' <> Bound
    /\ (dir_writable s = true -> path s <> Directory -> path s' = Absent)
    /\ running s' = false
    /\ client_sockets s' = [].
Proof.
  intros Hp Hopen.
  destruct (open_listener_raise e s err s0 Hp Hopen) as (Hw & Hbound & Hdir).
  destruct (cleanup_spec s0) as (s' & Hc & Hr & Hcs & _ & _ & Hp').
  exists s'. rewrite start_eq, Hopen, Hc. split; [reflexivity|].
  split; [reflexivity|]. rewrite Hp'. unfold removable. rewrite <- Hw.
  repeat split; try assumption.
  - destruct (dir_writable s0) eqn:Ew; cbn.
    + destruct (path s0); cbn; discriminate.
    + intros H. specialize (Hbound H). discriminate.
  - intros -> Hnd. cbn.
    rewrite bool_decide_eq_false_2 by auto. reflexivity.
Qed.

(** Every way out of [start] goes through [cleanup]. *)
Lemma start_exit_is_cleaned_up (table : gmap string handler) e sched s code s' :
  start table e sched s = (Ok (Some code), s') ->
  exists s1, cleanup s1 = (Ok tt, s').
Proof.
  rewrite start_eq.
  destruct (open_listener e s) as [[[]|err] s0].
  - destruct (accept_loop table sched s0) as [[[|]|err] s1]; intros [= <- <-];
      exists s1; destruct (cleanup_spec s1) as (s2 & -> & _); reflexivity.
  - intros [= <- <-]. exists s0. destruct (cleanup_spec s0) as (s2 & -> & _). reflexivity.
Qed.

Lemma startup_failure_is_cleaned_up_witness :
  let failing := Startup (Some 0%nat) true false true in
  init Stale true
  = Server false [] [] None ∅ ∅ ∅ Stale true []
  /\ exists s',
       start sample_table failing [] (init Stale true) = (Ok (Some 1), s')
       /\ path s' = Absent
       /\ running s' = false.
Proof.
  intros failing. split; [reflexivity|].
  destruct (startup_failure_is_cleaned_up sample_table failing [] (init Stale true)
              (Exn OSError "[Errno 95] Operation not supported")
              (Server false [] [] (Some 0%nat) ∅ ∅ ∅ Bound true []))
    as (s' & Hs & _ & _ & Hp & Hr & _); [discriminate | reflexivity |].
  exists s'. split; [exact Hs|]. split; [|exact Hr].
  apply Hp; [reflexivity | discriminate].
Defined.

(** The failures of start-up, one by one, from a fresh server. *)
Example startup_failures :
  fst (start sample_table (Startup (Some 0%nat) true true true) [] (init Stale false))
  = Ok (Some 1)
  /\ fst (start sample_table (Startup None true true true) [] (init Absent true))
     = Ok (Some 1)
  /\ fst (start sample_table (Startup (Some 0%nat) false true true) [] (init Absent true))
     = Ok (Some 1)
  /\ fst (start sample_table (Startup (Some 0%nat) true true true) [] (init Absent false))
     = Ok (Some 1)
  /\ start sample_table (Startup (Some 0%nat) true true true) [] (init Directory true)
     = (Ok (Some 1), init Directory true)
  /\ path (snd (start sample_table (Startup (Some 0%nat) true false true) []
                  (init Absent true)))
     = Absent
  /\ trace (snd (start sample_table (Startup (Some 0%nat) true false true) []
                   (init Absent true)))
     = [EvClose 0%nat].
Proof. repeat split; reflexivity. Qed.

(** A failure of [chmod] or [chown] does not stop the start-up. *)
Example permissions_failure_is_not_fatal :
  start sample_table (Startup (Some 0%nat) true true false) [] (init Stale true)
  = (Ok None, Server true [] [] (Some 0%nat) ∅ ∅ ∅ Bound true []).
Proof. reflexivity. Qed.

(** A normal run: a client, a signal, the loop ends, the file goes. *)
Example start_then_signal :
  let r := start sample_table (Startup (Some 0%nat) true true true)
             [Accept (Accepted 1%nat); Async (Enter 1%nat);
              Accept AcceptTimeout; Async Signal;
              Async (Turn 1%nat RecvTimeout); Accept AcceptTimeout]
             (init Stale true) in
  fst r = Ok (Some 0)
  /\ path (snd r) = Absent
  /\ trace (snd r)
     = [EvSend 1%nat shutdown_notice true; EvClose 1%nat; EvClose 1%nat; EvClose 0%nat].
Proof. cbv zeta. repeat split; reflexivity. Qed.

(** ** The registry invariant *)

Lemma one_client_is_reached :
  start sample_table (Startup (Some 0%nat) true true true)
    [Accept (Accepted 1%nat); Async (Enter 1%nat)] (init Absent true)
  = (Ok None, one_client).
Proof. reflexivity. Qed.

(** C9, as amended. In every state the server reaches from a fresh
    start, along any schedule of accepts, session turns, signals and
    peer events: no handle is in the registry twice; a handle in the
    registry belongs to a session between its entry and its exit; as
    long as the server is running, every session between its entry and
    its exit has its handle in the registry (a shutdown empties the
    registry while such sessions are still there); and removing a handle
    that is not in the registry changes nothing. *)
Theorem registry_tracks_sessions (table : gmap string handler) e sched p w :
  let s' := snd (start table e sched (init p w)) in
  NoDup (client_sockets s')
  /\ (forall c, c ∈ client_sockets s' -> serving c s' = true)
  /\ (running s' = true ->
      forall c, serving c s' = true -> c ∈ client_sockets s')
  /\ (forall c s, c ∉ client_sockets s -> unregister c s = (Ok tt, s)).
Proof.
  intros s'.
  assert (Hok : registry_ok s').
  { subst s'. rewrite start_eq.
    pose proof (open_listener_frame e (init p w)) as (Hcs & Hth & _).
    destruct (open_listener e (init p w)) as [[[]|err] s0]; cbn [snd] in *.
    - assert (H0 : registry_ok s0).
      { unfold registry_ok. rewrite Hcs, Hth. cbn.
        split; [constructor|]. split; [intros c H; inversion H|].
        intros _ c H. rewrite lookup_empty in H. discriminate. }
      pose proof (registry_ok_accept_loop table sched s0 H0) as H1.
      destruct (accept_loop table sched s0) as [[[|]|err] s1]; cbn [snd] in *;
        try exact H1;
        destruct (cleanup_spec s1) as (s2 & -> & Hr & Hc & _);
        apply registry_ok_cleared; assumption.
    - destruct (cleanup_spec s0) as (s2 & -> & Hr & Hc & _).
      apply registry_ok_cleared; assumption. }
  destruct Hok as (Hnd & Hin & Hall).
  split; [exact Hnd|]. split; [|split].
  - intros c Hc. unfold serving. apply bool_decide_eq_true. auto.
  - intros Hrun c Hc. unfold serving in Hc. apply bool_decide_eq_true in Hc. auto.
  - intros c s Hc. rewrite unregister_eq, remove_first_absent by assumption.
    destruct s; reflexivity.
Qed.

(** C9 as stated fails: a session can be between its entry and its exit
    with its handle out of the registry. After the signal the registry
    is empty while the session of client 1 is still in its loop; it
    leaves at its next turn. *)
Lemma session_outlives_registration :
  let s := snd (start sample_table (Startup (Some 0%nat) true true true)
                  [Accept (Accepted 1%nat); Async (Enter 1%nat)] (init Absent true)) in
  let s' := snd (step sample_table Signal s) in
  (serving 1%nat s = true /\ client_sockets s = [1%nat])
  /\ (serving 1%nat s' = true /\ client_sockets s' = [])
  /\ serving 1%nat (snd (step sample_table (Turn 1%nat RecvTimeout) s')) = false.
Proof. cbv zeta. repeat split; reflexivity. Qed.

(* ===================================================================== *)
(** * Further properties of the server *)
(* ===================================================================== *)

(** ** The dispatcher *)

(** X1. A request that is a JSON object whose [method] is truthy and no
    key of the table (a name that is not registered, a number, [true]):
    the dispatcher returns exactly the envelope [No such method:
    '<method>'], with [str] of the method in it; on a writable
    connection the session writes it (with the request's [request_id]
    when that is truthy), closes nothing and stays in its loop. *)
Theorem unknown_method_is_reported
    (table : gmap string handler) (c : sock) d method s :
  json_value (PDict d) = true ->
  dict_get d "method" = Some method -> truthy method = true ->
  (exists m, method = PStr m /\ table !! m = None)
  \/ (exists n, method = PInt n) \/ method = PBool true ->
  running s = true -> writable c s = true ->
  handle_request table (PDict d)
  = Ok (PDict [("success", PBool false);
               ("error", PStr ("No such method: '" +:+ py_str method +:+ "'"))])
  /\ exists reply s',
       attach (field d "request_id" PNone) (no_such_method method) = Ok reply
       /\ handle_client_turn table c (RecvData (Json (PDict d))) s = (Ok tt, s')
       /\ trace s' = (trace s ++ [EvSend c reply true])%list
       /\ closed s' = closed s
       /\ threads s' = threads s
       /\ client_sockets s' = client_sockets s
       /\ running s' = true.
Proof.
  intros Hd Hm Ht Hkind Hrun Hw.
  assert (Hreq : handle_request table (PDict d) = Ok (no_such_method method)).
  { unfold handle_request, py_get. rewrite Hm. cbn [mbind result_bind]. rewrite Ht.
    cbn [negb].
    destruct Hkind as [(m & -> & Hnone) | [(n & ->) | ->]]; cbn [table_get mbind result_bind];
      rewrite ?Hnone; reflexivity. }
  split; [exact Hreq|].
  apply (turn_envelope table c d _ s); assumption.
Qed.

Lemma unknown_method_is_reported_witness :
  handle_request sample_table (PDict [("method", PInt 5); ("request_id", PStr "q")])
  = Ok (PDict [("success", PBool false); ("error", PStr "No such method: '5'")])
  /\ handle_request sample_table (PDict [("method", PStr "List_Updates")])
     = Ok (PDict [("success", PBool false);
                  ("error", PStr "No such method: 'List_Updates'")]).
Proof.
  split.
  - refine (proj1 (unknown_method_is_reported sample_table 1%nat
                     [("method", PInt 5); ("request_id", PStr "q")] (PInt 5) one_client
                     eq_refl eq_refl eq_refl _ eq_refl eq_refl)).
    right. left. exists 5. reflexivity.
  - refine (proj1 (unknown_method_is_reported sample_table 1%nat
                     [("method", PStr "List_Updates")] (PStr "List_Updates") one_client
                     eq_refl eq_refl eq_refl _ eq_refl eq_refl)).
    left. exists "List_Updates". split; reflexivity.
Defined.

(** X2. On a JSON object the dispatcher raises in one case only: the
    [method] is a non-empty list or a non-empty dict, which the table
    cannot hash. Whatever a handler does, returning or raising, comes
    back as a value. *)
Theorem dispatcher_raises_only_for_unhashable_method
    (table : gmap string handler) d :
  (exists e, handle_request table (PDict d) = Raise e)
  <-> ((exists x l, field d "method" PNone = PList (x :: l))
       \/ (exists kv r, field d "method" PNone = PDict (kv :: r))).
Proof.
  unfold handle_request, py_get, field. cbn [mbind result_bind].
  destruct (dict_get d "method") as [method|]; [|cbn; split].
  - destruct method as [| b | n | m | l | r | ty tr]; cbn [truthy negb].
    + split; [intros [e [=]] | intros [(x & l & [=]) | (kv & r & [=])]].
    + destruct b; cbn; (split; [intros [e [=]] | intros [(x & l & [=]) | (kv & r & [=])]]).
    + destruct (Z.eqb n 0); cbn;
        (split; [intros [e [=]] | intros [(x & l & [=]) | (kv & r & [=])]]).
    + destruct (String.eqb m ""); cbn [negb table_get mbind result_bind].
      * split; [intros [e [=]] | intros [(x & l & [=]) | (kv & r & [=])]].
      * destruct (table !! m) as [h|]; cbn [mbind result_bind].
        -- destruct (h _) as [v|e']; [|destruct (is_type_error e')];
             (split; [intros [e [=]] | intros [(x & l & [=]) | (kv & r & [=])]]).
        -- split; [intros [e [=]] | intros [(x & l & [=]) | (kv & r & [=])]].
    + destruct l as [|x l]; cbn.
      * split; [intros [e [=]] | intros [(x & l & [=]) | (kv & r & [=])]].
      * split; [intros _; left; eauto | intros _; eexists; reflexivity].
    + destruct r as [|kv r]; cbn.
      * split; [intros [e [=]] | intros [(x & l & [=]) | (kv & r & [=])]].
      * split; [intros _; right; eauto | intros _; eexists; reflexivity].
    + destruct tr; cbn;
        (split; [intros [e [=]] | intros [(x & l & [=]) | (kv & r & [=])]]).
  - intros [e [=]].
  - intros [(x & l & [=]) | (kv & r & [=])].
Qed.

(** ** One turn of a session *)

(** X3. Whatever data arrives in a running session on a writable
    connection (a request, something that is no JSON, bytes that are no
    UTF-8), exactly one message is written in answer; after it the
    session either stays in its loop or closes its socket. *)
Theorem one_answer_per_request (table : gmap string handler) (c : sock) p s :
  running s = true -> writable c s = true ->
  exists msg s',
    handle_client_turn table c (RecvData p) s = (Ok tt, s')
    /\ (s' = log (EvSend c msg true) s
        \/ s' = left c (log (EvSend c msg true) s))
    /\ (trace s' = (trace s ++ [EvSend c msg true])%list
        \/ trace s' = (trace s ++ [EvSend c msg true; EvClose c])%list).
Proof.
  intros Hrun Hw. pose proof Hw as [Hc _]%writable_true.
  destruct (reply_to table p) as [reply|e] eqn:Hr.
  - exists reply. eexists. split; [apply (turn_reply table c p s reply); assumption|].
    split; [left; reflexivity | left; reflexivity].
  - destruct (is_json_decode_error e) eqn:He.
    + exists invalid_json. eexists.
      split; [apply (turn_invalid_json table c p s e); assumption|].
      split; [right; reflexivity|]. right. cbn. rewrite <- app_assoc. reflexivity.
    + exists (server_error (exn_str e)). eexists.
      split; [rewrite (turn_server_error table c p s e) by assumption; rewrite Hw;
              reflexivity|].
      split; [right; reflexivity|]. right. cbn. rewrite <- app_assoc. reflexivity.
Qed.

Lemma one_answer_per_request_witness :
  exists msg s',
    handle_client_turn sample_table 1%nat (RecvData (Json (PInt 7))) one_client
    = (Ok tt, s')
    /\ (s' = log (EvSend 1%nat msg true) one_client
        \/ s' = left 1%nat (log (EvSend 1%nat msg true) one_client)).
Proof.
  destruct (one_answer_per_request sample_table 1%nat (Json (PInt 7)) one_client
              eq_refl eq_refl) as (msg & s' & H & Hs & _).
  exists msg, s'. split; [exact H | exact Hs].
Defined.

(** X5. In a running session with an open socket, a [recv] that times
    out changes nothing at all; an empty read (the peer has closed) and
    a failed [recv] both end the session without anything being sent:
    the socket is unregistered and closed. *)
Theorem idle_and_broken_reads (table : gmap string handler) (c : sock) s :
  running s = true -> c ∉ closed s ->
  handle_client_turn table c RecvTimeout s = (Ok tt, s)
  /\ handle_client_turn table c RecvEmpty s = (Ok tt, left c s)
  /\ (forall detail, handle_client_turn table c (RecvFailed detail) s = (Ok tt, left c s))
  /\ trace (left c s) = (trace s ++ [EvClose c])%list
  /\ serving c (left c s) = false
  /\ client_sockets (left c s) = remove_first c (client_sockets s).
Proof.
  intros Hrun Hc.
  assert (Hturn : forall r, r <> RecvTimeout -> (forall p, r <> RecvData p) ->
                            handle_client_turn table c r s = (Ok tt, left c s)).
  { intros r Hr Hp. unfold handle_client_turn, turn. unfold_m. rewrite Hrun.
    rewrite recv_open by assumption.
    destruct r; try contradiction; cbn; rewrite ?leave_eq; try reflexivity.
    destruct (Hp p eq_refl). }
  split.
  - unfold handle_client_turn, turn. unfold_m. rewrite Hrun.
    rewrite recv_open by assumption. reflexivity.
  - split; [apply Hturn; discriminate|].
    split; [intros detail; apply Hturn; discriminate|].
    destruct (left_facts c s) as (Ht & _ & Hs & Hcs & _). auto.
Qed.

Lemma idle_and_broken_reads_witness :
  handle_client_turn sample_table 1%nat RecvTimeout one_client = (Ok tt, one_client)
  /\ handle_client_turn sample_table 1%nat RecvEmpty one_client
     = (Ok tt, left 1%nat one_client).
Proof.
  destruct (idle_and_broken_reads sample_table 1%nat one_client eq_refl) as (H1 & H2 & _).
  - set_solver.
  - split; [exact H1 | exact H2].
Defined.

(** ** A session and the other connections *)

Lemma acts_on_refl c s : acts_on c s s.
Proof.
  split; [apply same_but_trace_refl|]. exists []. split; [|constructor].
  rewrite app_nil_r. reflexivity.
Qed.

Lemma acts_on_trans c s1 s2 s3 : acts_on c s1 s2 -> acts_on c s2 s3 -> acts_on c s1 s3.
Proof.
  intros [H12 (l1 & Ht1 & Hf1)] [H23 (l2 & Ht2 & Hf2)].
  split; [eapply same_but_trace_trans; eassumption|].
  exists (l1 ++ l2)%list. split; [|apply Forall_app; auto].
  rewrite Ht2, Ht1, app_assoc. reflexivity.
Qed.

Lemma acts_on_log c ev s : on_sock ev = c -> acts_on c s (log ev s).
Proof.
  intros H. split; [repeat split|]. exists [ev]. split; [reflexivity|].
  constructor; [exact H | constructor].
Qed.

Lemma only_on_ret {A : Type} c (a : A) : only_on c (mret a).
Proof. intros s. apply acts_on_refl. Qed.

Lemma only_on_lift {A : Type} c (r : result A) : only_on c (lift r).
Proof. intros s. apply acts_on_refl. Qed.

Lemma only_on_bind {A B : Type} c (m : M A) (k : A -> M B) :
  only_on c m -> (forall a, only_on c (k a)) -> only_on c (m ≫= k).
Proof.
  intros Hm Hk s. unfold mbind, M_bind. specialize (Hm s).
  destruct (m s) as [[a|e] s1]; cbn in *; [|exact Hm].
  eapply acts_on_trans; [exact Hm | apply Hk].
Qed.

Lemma only_on_try_except {A : Type} c (body : M A) clauses :
  only_on c body ->
  (forall e h, clauses e = Some h -> only_on c h) ->
  only_on c (try_except body clauses).
Proof.
  intros Hb Hc s. unfold try_except. specialize (Hb s).
  destruct (body s) as [[a|e] s1]; cbn in *; [exact Hb|].
  destruct (clauses e) as [h|] eqn:E; [|exact Hb].
  eapply acts_on_trans; [exact Hb | exact (Hc e h E s1)].
Qed.

Lemma only_on_sendall c msg : only_on c (sendall c msg).
Proof.
  intros s. unfold sendall.
  destruct (bool_decide (c ∈ closed s)); [apply acts_on_log; reflexivity|].
  destruct (link_of s c); apply acts_on_log; reflexivity.
Qed.

Lemma only_on_recv c r : only_on c (recv c r).
Proof.
  intros s. unfold recv.
  destruct (bool_decide (c ∈ closed s)); [apply acts_on_refl|].
  destruct r; apply acts_on_refl.
Qed.

Section Isolation.

Variable table : gmap string handler.

Lemma only_on_respond c p : only_on c (respond table c p).
Proof.
  unfold respond. apply only_on_try_except.
  - apply only_on_bind; [apply only_on_lift|]. intros v.
    apply only_on_bind; [apply only_on_sendall|]. intros _. apply only_on_ret.
  - intros e h. destruct (is_json_decode_error e); intros [= <-].
    + apply only_on_bind; [apply only_on_sendall|]. intros _. apply only_on_ret.
    + apply only_on_bind; [|intros _; apply only_on_ret].
      apply only_on_try_except; [apply only_on_sendall|].
      intros e' h' [= <-]. apply only_on_ret.
Qed.

Lemma only_on_turn c r : only_on c (turn table c r).
Proof.
  unfold turn. apply only_on_try_except.
  - apply only_on_bind; [apply only_on_recv|].
    intros [p|]; [apply only_on_respond | apply only_on_ret].
  - intros e h. destruct (is_socket_timeout e); [intros [= <-]; apply only_on_ret|].
    destruct (is_socket_error e); [intros [= <-]; apply only_on_ret | discriminate].
Qed.

Lemma handle_client_turn_on c r s :
  exists s1,
    acts_on c s s1
    /\ (handle_client_turn table c r s = (Ok tt, s1)
        \/ handle_client_turn table c r s = (Ok tt, left c s1)).
Proof.
  unfold handle_client_turn. unfold_m. destruct (running s).
  - pose proof (only_on_turn c r s) as H.
    destruct (turn table c r s) as [[[|]|e] s1]; cbn in H; exists s1;
      (split; [exact H|]); rewrite ?leave_eq; auto.
  - exists s. split; [apply acts_on_refl|]. right. apply leave_eq.
Qed.

End Isolation.

(** X4. One turn of the session of [c], whatever it receives and in
    whatever state: it raises nothing, every call it makes ([sendall],
    [close]) is on its own socket, and for every other handle nothing
    changes: closed or not, registered or not, the phase of its
    thread. The flag [running], the listening socket and the socket
    path are left as they are. *)
Theorem session_touches_only_its_socket
    (table : gmap string handler) (c : sock) r s :
  exists s' calls,
    handle_client_turn table c r s = (Ok tt, s')
    /\ trace s' = (trace s ++ calls)%list
    /\ Forall (fun ev => on_sock ev = c) calls
    /\ (forall c', c' <> c ->
          (c' ∈ closed s' <-> c' ∈ closed s)
          /\ (c' ∈ client_sockets s' <-> c' ∈ client_sockets s)
          /\ threads s' !! c' = threads s !! c')
    /\ running s' = running s
    /\ server_socket s' = server_socket s
    /\ path s' = path s.
Proof.
  destruct (handle_client_turn_on table c r s)
    as (s1 & [(Hr & Hcs & _ & Hss & Hcl & _ & Hth & Hp & _) (calls & Ht & Hf)] & [H | H]).
  - exists s1, calls. split; [exact H|]. split; [exact Ht|]. split; [exact Hf|].
    rewrite Hr, Hcs, Hss, Hcl, Hth, Hp. repeat split; auto.
  - exists (left c s1), (calls ++ [EvClose c])%list. split; [exact H|].
    split; [cbn; rewrite Ht, app_assoc; reflexivity|].
    split; [apply Forall_app; split; [exact Hf | repeat constructor]|].
    cbn. rewrite Hr, Hcs, Hss, Hcl, Hth, Hp. repeat split; auto.
    + set_solver.
    + set_solver.
    + apply elem_of_remove_first.
    + apply elem_of_remove_first_ne. assumption.
    + apply lookup_insert_ne. congruence.
Qed.

(** ** Shutdown, then the sessions and the teardown *)




(** ** The accept loop *)

Section Loop.

Variable table : gmap string handler.

Lemma step_ok b s : exists s', step table b s = (Ok tt, s').
Proof.
  destruct b as [|c|c r|c l]; cbn [step].
  - destruct (shutdown_spec s) as (s1 & -> & _). eauto.
  - eexists. reflexivity.
  - destruct (handle_client_turn_effect table c r s) as (s1 & _ & [-> | ->]); eauto.
  - eexists. reflexivity.
Qed.

Lemma loop_frame_refl s : loop_frame s s.
Proof. repeat split; auto. Qed.

Lemma loop_frame_trans s1 s2 s3 :
  loop_frame s1 s2 -> loop_frame s2 s3 -> loop_frame s1 s3.
Proof.
  intros (? & ? & ? & ?) (? & ? & ? & ?). repeat split; try congruence. auto.
Qed.

Lemma loop_frame_same s s' : same_but_trace s s' -> loop_frame s s'.
Proof.
  intros (Hr & _ & _ & Hss & _ & _ & _ & Hp & Hw).
  repeat split; try assumption. congruence.
Qed.

Lemma loop_frame_step b s : loop_frame s (snd (step table b s)).
Proof.
  destruct b as [|c|c r|c l]; cbn [step].
  - unfold shutdown. unfold_m. rewrite disconnect_all_clients_eq. fields.
    destruct (disconnected_frame (client_sockets s) (set_running false s))
      as (Hr & _ & _ & Hss & _ & _ & Hp & Hw).
    cbn in Hr, Hss, Hp, Hw. repeat split; auto.
  - repeat split; auto.
  - destruct (handle_client_turn_effect table c r s) as (s1 & Hs & [-> | ->]); cbn [snd].
    + apply loop_frame_same, Hs.
    + eapply loop_frame_trans; [apply loop_frame_same, Hs|]. repeat split; auto.
  - repeat split; auto.
Qed.

Lemma accept_turn_frame a s l :
  server_socket s = Some l ->
  exists k s', accept_turn a s = (Ok k, s')
               /\ loop_frame s s' /\ running s' = running s.
Proof.
  intros Hl. unfold accept_turn, accept, spawn, set_phase. unfold_m. rewrite Hl.
  destruct (bool_decide (l ∈ closed s)); cbn;
    [do 2 eexists; split; [reflexivity|]; split; [apply loop_frame_refl | reflexivity]|].
  destruct a; cbn; do 2 eexists;
    (split; [reflexivity|]); (split; [repeat split; auto | reflexivity]).
Qed.

(** Once the listening socket is there, the loop raises nothing, and it
    goes on only while the server is running. *)
Lemma accept_loop_spec sched s l :
  server_socket s = Some l ->
  exists out s',
    accept_loop table sched s = (Ok out, s')
    /\ loop_frame s s'
    /\ (out = false -> running s' = true).
Proof.
  revert s. induction sched as [|ev sched IH]; intros s Hl.
  - cbn. unfold_m. exists (negb (running s)), s. split; [reflexivity|].
    split; [apply loop_frame_refl|]. destruct (running s); [reflexivity | discriminate].
  - cbn [accept_loop]. unfold_m. destruct (enabled ev s); [|apply IH, Hl].
    destruct ev as [a|b].
    + destruct (running s) eqn:Hrun.
      * destruct (accept_turn_frame a s l Hl) as (k & s1 & -> & Hf & _).
        destruct k.
        -- destruct (IH s1) as (out & s' & -> & Hf' & Hout).
           { destruct Hf as (-> & _). exact Hl. }
           exists out, s'. split; [reflexivity|]. split; [|exact Hout].
           eapply loop_frame_trans; eassumption.
        -- exists true, s1. split; [reflexivity|]. split; [exact Hf | discriminate].
      * exists true, s. split; [reflexivity|]. split; [apply loop_frame_refl|discriminate].
    + pose proof (loop_frame_step b s) as Hf.
      destruct (step_ok b s) as (s1 & Hs). rewrite Hs in *. cbn [snd] in Hf.
      destruct (IH s1) as (out & s' & -> & Hf' & Hout).
      { destruct Hf as (-> & _). exact Hl. }
      exists out, s'. split; [reflexivity|]. split; [|exact Hout].
      eapply loop_frame_trans; eassumption.
Qed.

End Loop.

(** When the statements before the accept loop succeed, the server is
    running on the socket file it has made. *)
Lemma open_listener_ok e s s0 :
  open_listener e s = (Ok tt, s0) ->
  path s0 = Bound /\ dir_writable s0 = true /\ running s0 = true
  /\ exists l, server_socket s0 = Some l.
Proof.
  unfold open_listener, path_exists, unlink, create_socket, bind, listen,
    set_socket_permissions.
  unfold_m. destruct s as [r cs ct ss cl li th p w tr]. fields.
  destruct p, w, (new_socket e), (path_usable e), (listen_ok e), (permissions_ok e);
    cbn; try congruence; intros [= <-]; cbn; repeat split; eauto.
Qed.

Section LoopEnd.

Variable table : gmap string handler.

(** With [running] false the loop is left at its next test. *)
Lemma accept_loop_stopped sched s :
  running s = false ->
  exists s', accept_loop table sched s = (Ok true, s') /\ running s' = false.
Proof.
  revert s. induction sched as [|ev sched IH]; intros s Hrun.
  - cbn. unfold_m. rewrite Hrun. exists s. auto.
  - cbn [accept_loop]. unfold_m. destruct (enabled ev s); [|apply IH, Hrun].
    destruct ev as [a|b].
    + rewrite Hrun. exists s. auto.
    + pose proof (loop_frame_step table b s) as (_ & _ & _ & Hf).
      destruct (step_ok table b s) as (s1 & Hs). rewrite Hs in *. cbn [snd] in *.
      apply IH, Hf, Hrun.
Qed.

Lemma signal_leaves_loop sched s l :
  server_socket s = Some l -> Async Signal ∈ sched ->
  exists s', accept_loop table sched s = (Ok true, s').
Proof.
  revert s. induction sched as [|ev sched IH]; intros s Hl Hin; [inversion Hin|].
  cbn [accept_loop]. unfold_m. apply elem_of_cons in Hin as [<-|Hin].
  - cbn [enabled step].
    destruct (shutdown_spec s) as (s1 & -> & Hr & _).
    destruct (accept_loop_stopped sched s1 Hr) as (s' & -> & _). eauto.
  - destruct (enabled ev s); [|apply IH; assumption].
    destruct ev as [a|b].
    + destruct (running s); [|eauto].
      destruct (accept_turn_frame a s l Hl) as (k & s1 & -> & (Hss & _) & _).
      destruct k; [|eauto]. apply IH; [congruence | assumption].
    + pose proof (loop_frame_step table b s) as (Hss & _).
      destruct (step_ok table b s) as (s1 & Hs). rewrite Hs in *. cbn [snd] in *.
      apply IH; [congruence | assumption].
Qed.


(** X11. A termination signal ends the server cleanly. If the server
    has come to listen and the schedule has a signal in it, [start]
    returns 0, the server is not running, the registry is empty and the
    socket file has been removed. *)
Theorem signal_ends_the_server e sched s s0 :
  open_listener e s = (Ok tt, s0) ->
  Async Signal ∈ sched ->
  exists s',
    start table e sched s = (Ok (Some 0), s')
    /\ running s' = false
    /\ client_sockets s' = []
    /\ path s' = Absent.
Proof.
  intros Hopen Hin.
  destruct (open_listener_ok e s s0 Hopen) as (Hb & Hw & Hrun & l & Hl).
  destruct (signal_leaves_loop sched s0 l Hl Hin) as (s1 & Hloop).
  destruct (accept_loop_spec table sched s0 l Hl)
    as (out & s1' & Hloop' & (_ & Hp1 & Hw1 & _) & _).
  assert (s1' = s1) by congruence. subst s1'.
  destruct (cleanup_spec s1) as (s2 & Hcl & Hr2 & Hc2 & _ & _ & Hp2).
  exists s2. rewrite start_eq, Hopen, Hloop, Hcl. split; [reflexivity|].
  rewrite Hp2. unfold removable. rewrite Hw1, Hw, Hp1, Hb. auto.
Qed.

End LoopEnd.


Lemma signal_ends_the_server_witness :
  exists s',
    start sample_table (Startup (Some 0%nat) true true true)
      [Accept (Accepted 1%nat); Async (Enter 1%nat); Async Signal] (init Stale true)
    = (Ok (Some 0), s')
    /\ path s' = Absent.
Proof.
  destruct (signal_ends_the_server sample_table (Startup (Some 0%nat) true true true)
              [Accept (Accepted 1%nat); Async (Enter 1%nat); Async Signal]
              (init Stale true) (Server true [] [] (Some 0%nat) ∅ ∅ ∅ Bound true []))
    as (s' & H & _ & _ & Hp); [reflexivity | set_solver |].
  exists s'. split; [exact H | exact Hp].
Defined.

(** ** The shipped method table *)

(** What the dispatcher returns for a JSON object: an error envelope of
    its own, or the value of the handler the [method] names. *)
Lemma handle_request_invoked (table : gmap string handler) d v :
  handle_request table (PDict d) = Ok v ->
  (exists msg, v = error_envelope msg)
  \/ (exists m h, field d "method" PNone = PStr m /\ table !! m = Some h
                  /\ h (field d "args" (PList [])) = Ok v).
Proof.
  unfold handle_request, field, py_get. cbn [mbind result_bind].
  destruct (negb (truthy _)) eqn:Hm; [intros [= <-]; left; eexists; reflexivity|].
  destruct (match dict_get d "method" with Some v0 => v0 | None => PNone end)
    as [| b | n | m | l | r | ty tr] eqn:Hv; cbn [table_get mbind result_bind];
    try (intros [= <-]; left; eexists; reflexivity); try discriminate.
  destruct (table !! m) as [h|] eqn:Ht; cbn [mbind result_bind].
  - destruct (h _) as [v'|e] eqn:Hh.
    + intros [= <-]. right. exists m, h. auto.
    + destruct (is_type_error e); intros [= <-]; left; eexists; reflexivity.
  - intros [= <-]. left. eexists. reflexivity.
Qed.

(** X12. With the table of methods.py, every value the dispatcher
    returns for a JSON object is a dict with a boolean [success]; and
    [success] is true only for [list_updates] called with no argument
    when both [pacman] runs came back with exit status 0, the answer
    then being the output of the second run under [updates]. *)
Theorem success_means_both_pacman_runs sy sup d v :
  handle_request (METHODS sy sup) (PDict d) = Ok v ->
  exists r b,
    v = PDict r /\ dict_get r "success" = Some (PBool b)
    /\ (b = true ->
        exists out1 out2,
          sy = Completed out1 /\ sup = Completed out2
          /\ field d "method" PNone = PStr "list_updates"
          /\ star_args (field d "args" (PList [])) = Some []
          /\ r = [("success", PBool true); ("updates", PStr out2)]).
Proof.
  intros H. apply handle_request_invoked in H as [(msg & ->) | (m & h & Hm & Ht & Hh)].
  - eexists. exists false. split; [reflexivity|]. split; [reflexivity | discriminate].
  - unfold METHODS in Ht. apply lookup_singleton_Some in Ht as [<- <-].
    unfold list_updates in Hh.
    destruct (star_args (field d "args" (PList []))) as [[|x l]|] eqn:Hs; try discriminate.
    destruct sy as [out1 | rc1 err1 | e1]; try discriminate.
    + destruct sup as [out2 | rc2 err2 | e2]; try discriminate; injection Hh as <-.
      * eexists. exists true. split; [reflexivity|]. split; [reflexivity|].
        intros _. exists out1, out2. auto.
      * eexists. exists false. split; [reflexivity|]. split; [reflexivity | discriminate].
    + injection Hh as <-.
      eexists. exists false. split; [reflexivity|]. split; [reflexivity | discriminate].
Qed.

Lemma success_means_both_pacman_runs_witness :
  exists r b,
    PDict [("success", PBool false); ("exit_code", PInt 1); ("error", PStr "no db")]
    = PDict r
    /\ dict_get r "success" = Some (PBool b).
Proof.
  destruct (success_means_both_pacman_runs (CalledProcessError 1 "no db") (Completed "")
              [("method", PStr "list_updates")]
              (PDict [("success", PBool false); ("exit_code", PInt 1);
                      ("error", PStr "no db")]) eq_refl) as (r & b & H1 & H2 & _).
  exists r, b. split; [exact H1 | exact H2].
Defined.

(** X13. [list_updates] takes no argument: when [args] unpacks to
    anything but nothing (a non-empty list, str or dict, or a value
    that is no iterable), the call fails before any [pacman] run, and
    the dispatcher answers with the [Invalid arguments] envelope,
    the same whatever the runs would have given. *)
Theorem list_updates_takes_no_argument sy sup d :
  dict_get d "method" = Some (PStr "list_updates") ->
  star_args (field d "args" (PList [])) <> Some [] ->
  (exists detail,
     handle_request (METHODS sy sup) (PDict d)
     = Ok (invalid_arguments (field d "args" (PList [])) (PStr "list_updates") detail))
  /\ forall sy' sup',
       handle_request (METHODS sy' sup') (PDict d)
       = handle_request (METHODS sy sup) (PDict d).
Proof.
  intros Hm Hargs.
  assert (H : forall sy sup,
             handle_request (METHODS sy sup) (PDict d)
             = match star_args (field d "args" (PList [])) with
               | None =>
                   Ok (invalid_arguments (field d "args" (PList [])) (PStr "list_updates")
                         ("methods.list_updates() argument after * must be an iterable, not "
                            +:+ type_name (field d "args" (PList []))))
               | Some l =>
                   Ok (invalid_arguments (field d "args" (PList [])) (PStr "list_updates")
                         (arity_message "list_updates" (length l)))
               end).
  { intros sy0 sup0.
    rewrite (handle_request_invokes _ d "list_updates" (list_updates sy0 sup0) Hm);
      [|discriminate|reflexivity].
    unfold list_updates.
    destruct (star_args (field d "args" (PList []))) as [[|x l]|]; try reflexivity.
    contradiction. }
  split.
  - rewrite H. destruct (star_args _); eexists; reflexivity.
  - intros sy' sup'. rewrite !H. reflexivity.
Qed.

Lemma list_updates_takes_no_argument_witness :
  exists detail,
    handle_request sample_table
      (PDict [("method", PStr "list_updates"); ("args", PNone)])
    = Ok (invalid_arguments PNone (PStr "list_updates") detail).
Proof.
  refine (proj1 (list_updates_takes_no_argument (Completed "")
                   (Completed "pkgA 1.0->1.1")
                   [("method", PStr "list_updates"); ("args", PNone)] eq_refl _)).
  discriminate.
Defined.

(** An empty str or an empty dict as [args] unpacks to nothing: the
    call goes through. *)
Example list_updates_empty_str_args :
  handle_request sample_table (PDict [("method", PStr "list_updates"); ("args", PStr "")])
  = Ok (PDict [("success", PBool true); ("updates", PStr "pkgA 1.0->1.1")]).
Proof. reflexivity. Qed.

(** ** Ownership of the socket file *)


(** A user name that has no entry does not keep the group from being
    set; a user name whose lookup fails otherwise does. *)
Example unknown_user_known_group :
  let groups := fun name => if String.eqb name "users"
                            then Permissions.Entry 100 else Permissions.NoEntry in
  Permissions.set_socket_permissions
    (Permissions.OsEnv 0 (fun _ => Permissions.NoEntry) groups true true)
    (Some (Permissions.Name "nobody_here")) (Some (Permissions.Name "users")) 438
  = [Permissions.Chmod 438; Permissions.Chown (-1) 100]
  /\ Permissions.set_socket_permissions
       (Permissions.OsEnv 0 (fun _ => Permissions.LookupFails) groups true true)
       (Some (Permissions.Name "nobody_here")) (Some (Permissions.Name "users")) 438
     = [Permissions.Chmod 438].
Proof. split; reflexivity. Qed.

(** ** The earlier server *)

Section Earlier.

Variable table : gmap string handler.

(** X15. The dispatcher of connections/server.py and the dispatcher of
    sockets/server/server.py give the same result, value or exception,
    on every request for which no handler raises. When the handler the
    request names raises, they part: for a [TypeError] the earlier one
    returns one fixed envelope, the text [{args}] and [{method}]
    standing in it as written, and any other exception leaves it
    instead of becoming a [Method ... failed] envelope. *)
Theorem earlier_dispatcher_differs_on_failures json_data :
  ((forall d m h e,
      json_data = PDict d -> dict_get d "method" = Some (PStr m) ->
      table !! m = Some h -> h (field d "args" (PList [])) = Raise e -> False) ->
   Connections.handle_request table json_data = handle_request table json_data)
  /\ (forall d m h e,
        json_data = PDict d -> dict_get d "method" = Some (PStr m) -> m <> "" ->
        table !! m = Some h -> h (field d "args" (PList [])) = Raise e ->
        Connections.handle_request table json_data
        = (if is_type_error e
           then Ok (error_envelope "Invalid arguments '{args}' for method '{method}'.")
           else Raise e)
        /\ exists msg, handle_request table json_data = Ok (error_envelope msg)).
Proof.
  split.
  - intros Hno. unfold Connections.handle_request, handle_request, py_get.
    destruct json_data as [| b | n | m | l | d | ty tr]; try reflexivity.
    cbn [mbind result_bind].
    destruct (negb (truthy _)); [reflexivity|].
    destruct (match dict_get d "method" with Some v => v | None => PNone end)
      as [| b | n | m | l | r | ty tr] eqn:Hm; try reflexivity.
    cbn [table_get mbind result_bind].
    destruct (table !! m) as [h|] eqn:Ht; [|reflexivity]. cbn [mbind result_bind].
    destruct (h _) as [v|e] eqn:Hh; [reflexivity|].
    exfalso. apply (Hno d m h e eq_refl); try assumption.
    destruct (dict_get d "method"); [congruence | discriminate].
  - intros d m h e -> Hm Hne Ht Hh. split.
    + unfold Connections.handle_request, py_get. rewrite Hm.
      cbn [mbind result_bind truthy negb table_get].
      destruct (String.eqb_spec m ""); [contradiction|]. cbn [negb].
      rewrite Ht. cbn [mbind result_bind]. unfold field in Hh. rewrite Hh. reflexivity.
    + rewrite (handle_request_invokes table d m h) by assumption. rewrite Hh.
      destruct (is_type_error e); eexists; reflexivity.
Qed.

Lemma earlier_leave_eq c s :
  Connections.leave c s
  = (Ok tt, set_threads (<[c := Finished]> (threads s))
              (log (EvClose c) (set_closed ({[c]} ∪ closed s) s))).
Proof. reflexivity. Qed.

(** X16. In the session of connections/server.py, data that cannot be
    answered (no UTF-8, no JSON, no object, a handler that raises
    something else than a [TypeError], a result [json.dumps] refuses)
    ends the session with nothing sent: the only call is the [close] of
    the socket. Data that can be answered is answered, on a writable
    connection, with the very value the dispatcher returned, no
    [request_id] added, and the session goes on. *)
Theorem earlier_session_fails_silently (c : sock) p s :
  running s = true -> c ∉ closed s ->
  (forall e,
     Connections.reply_to table p = Raise e ->
     exists s',
       Connections.handle_client_turn table c (RecvData p) s = (Ok tt, s')
       /\ trace s' = (trace s ++ [EvClose c])%list
       /\ c ∈ closed s'
       /\ threads s' !! c = Some Finished)
  /\ (forall v,
        Connections.reply_to table p = Ok v -> writable c s = true ->
        Connections.handle_client_turn table c (RecvData p) s
        = (Ok tt, log (EvSend c v true) s)
        /\ exists json_data,
             p = Json json_data /\ Connections.handle_request table json_data = Ok v).
Proof.
  intros Hrun Hc. split.
  - intros e He. eexists. split.
    + unfold Connections.handle_client_turn, Connections.turn, Connections.respond.
      unfold_m. rewrite Hrun. rewrite recv_open by assumption. rewrite He.
      rewrite earlier_leave_eq. reflexivity.
    + fields. split; [reflexivity|]. split; [set_solver | apply lookup_insert_eq].
  - intros v Hv Hw. split.
    + unfold Connections.handle_client_turn, Connections.turn, Connections.respond.
      unfold_m. rewrite Hrun. rewrite recv_open by assumption. rewrite Hv.
      rewrite sendall_writable by assumption. reflexivity.
    + unfold Connections.reply_to in Hv.
      destruct p as [detail | detail | json_data]; try discriminate.
      exists json_data. split; [reflexivity|].
      cbn [loads mbind result_bind] in Hv.
      destruct (Connections.handle_request table json_data) as [v'|e]; [|discriminate].
      cbn [mbind result_bind] in Hv. unfold json_dumps in Hv.
      destruct (first_object v'); congruence.
Qed.

End Earlier.

Lemma earlier_dispatcher_differs_on_failures_witness :
  Connections.handle_request sample_table
    (PDict [("method", PStr "list_updates"); ("args", PList [PInt 1])])
  = Ok (error_envelope "Invalid arguments '{args}' for method '{method}'.")
  /\ Connections.handle_request sample_table (PDict [("method", PStr "nope")])
     = handle_request sample_table (PDict [("method", PStr "nope")]).
Proof.
  split.
  - refine (proj1 (proj2 (earlier_dispatcher_differs_on_failures sample_table
             (PDict [("method", PStr "list_updates"); ("args", PList [PInt 1])]))
             [("method", PStr "list_updates"); ("args", PList [PInt 1])] "list_updates"
             (list_updates (Completed "") (Completed "pkgA 1.0->1.1"))
             (Exn TypeError (arity_message "list_updates" 1))
             eq_refl eq_refl _ eq_refl eq_refl)).
    discriminate.
  - refine (proj1 (earlier_dispatcher_differs_on_failures sample_table
             (PDict [("method", PStr "nope")])) _).
    intros d m h e [= <-] [= <-] H. discriminate H.
Defined.

Lemma earlier_session_fails_silently_witness :
  exists s',
    Connections.handle_client_turn sample_table 1%nat (RecvData (NotJson "Expecting value"))
      one_client = (Ok tt, s')
    /\ trace s' = [EvClose 1%nat].
Proof.
  destruct (earlier_session_fails_silently sample_table 1%nat (NotJson "Expecting value")
              one_client eq_refl) as [H _]; [set_solver|].
  destruct (H (Exn JSONDecodeError "Expecting value") eq_refl) as (s' & H1 & H2 & _).
  exists s'. split; [exact H1 | exact H2].
Defined.

(* ===================================================================== *)
(** * Properties of the module scripts *)
(* ===================================================================== *)

(** ** updates/main.py *)

Lemma string_app_assoc (a b c : string) : (a +:+ b) +:+ c = a +:+ (b +:+ c).
Proof.
  induction a as [|x a IH]; [reflexivity|].
  change (String x ((a +:+ b) +:+ c) = String x (a +:+ (b +:+ c))). f_equal. exact IH.
Qed.

Lemma string_app_nil_r (a : string) : a +:+ "" = a.
Proof.
  induction a as [|x a IH]; [reflexivity|].
  change (String x (a +:+ "") = String x a). f_equal. exact IH.
Qed.

Lemma splitlines_from_plain line l rest :
  plain l = true ->
  Updates.splitlines_from line (l +:+ String (Updates.byte 10) rest)
  = (line +:+ l) :: Updates.splitlines_from "" rest.
Proof.
  revert line. induction l as [|a l IH]; intros line Hl.
  - cbn. rewrite string_app_nil_r. reflexivity.
  - cbn [plain] in Hl. apply andb_prop in Hl as [Ha Hl].
    apply negb_true_iff in Ha. unfold starts_boundary in Ha.
    apply orb_false_elim in Ha as [Ha H226]. apply orb_false_elim in Ha as [Ha H194].
    apply orb_false_elim in Ha as [Hsb H13].
    change ((String a l) +:+ String (Updates.byte 10) rest)
      with (String a (l +:+ String (Updates.byte 10) rest)).
    cbn [Updates.splitlines_from]. rewrite Hsb, H13.
    assert (Hgo : Updates.splitlines_from (line +:+ String a "")
                    (l +:+ String (Updates.byte 10) rest)
                  = (line +:+ String a l) :: Updates.splitlines_from "" rest).
    { rewrite IH by assumption. f_equal.
      exact (string_app_assoc line (String a "") l). }
    destruct (N.eqb (N_of_ascii a) 194) eqn:E194.
    { cbn [andb] in H194. destruct l as [|b l]; [exact Hgo|].
      change ((String b l) +:+ String (Updates.byte 10) rest)
        with (String b (l +:+ String (Updates.byte 10) rest)) in *.
      cbv beta iota. rewrite H194. exact Hgo. }
    destruct (N.eqb (N_of_ascii a) 226) eqn:E226; [|exact Hgo].
    cbn [andb] in H226. destruct l as [|b [|d l]].
    + change ("" +:+ String (Updates.byte 10) rest)
        with (String (Updates.byte 10) rest) in *.
      destruct rest as [|d rest]; exact Hgo.
    + change ((String b "") +:+ String (Updates.byte 10) rest)
        with (String b (String (Updates.byte 10) rest)) in *.
      cbv beta iota.
      replace (N.eqb (N_of_ascii (Updates.byte 10)) 168
               || N.eqb (N_of_ascii (Updates.byte 10)) 169) with false by reflexivity.
      rewrite andb_false_r. exact Hgo.
    + change ((String b (String d l)) +:+ String (Updates.byte 10) rest)
        with (String b (String d (l +:+ String (Updates.byte 10) rest))) in *.
      cbv beta iota. rewrite H226. exact Hgo.
Qed.

(** The text made of lines without a line boundary, each followed by a
    line feed, splits back into these lines. *)
Lemma splitlines_unlines lines :
  Forall (fun l => plain l = true) lines ->
  Updates.splitlines (unlines lines) = lines.
Proof.
  unfold Updates.splitlines. induction 1 as [|l lines Hl _ IH]; [reflexivity|].
  cbn [unlines]. rewrite splitlines_from_plain by assumption. cbn. rewrite IH. reflexivity.
Qed.

(** X18. [main] of updates/main.py counts the lines after the first
    two: for an output of lines without a line boundary inside, each
    followed by a line feed, the text printed is the number
    of lines minus 2 (negative when the header is short), [alt] is
    [updates_available] exactly when there are more than two lines, and
    the object printed has the keys [text] and [alt] only. *)
Theorem update_count_skips_two_lines lines :
  Forall (fun l => plain l = true) lines ->
  exists info,
    Updates.main (Completed (unlines lines)) = Ok info
    /\ text info = pretty (Z.of_nat (length lines) - 2)
    /\ (alt info = Some "updates_available" <-> (2 < length lines)%nat)
    /\ (alt info = Some "no_updates_available" <-> (length lines <= 2)%nat)
    /\ printed info
       = [("text", PStr (pretty (Z.of_nat (length lines) - 2)));
          ("alt", PStr (if Z.ltb 0 (Z.of_nat (length lines) - 2)
                        then "updates_available" else "no_updates_available"))].
Proof.
  intros H. unfold Updates.main. rewrite (splitlines_unlines lines H).
  eexists. split; [reflexivity|]. cbn [text alt]. split; [reflexivity|].
  destruct (Z.ltb_spec 0 (Z.of_nat (length lines) - 2)) as [Hlt|Hge].
  - split; [split; [intros _; lia | reflexivity]|].
    split; [split; [discriminate | intros; lia] | reflexivity].
  - split; [split; [discriminate | intros; lia]|].
    split; [split; [intros _; lia | reflexivity] | reflexivity].
Qed.

Lemma update_count_skips_two_lines_witness :
  exists info,
    Updates.main (Completed (unlines ["Package  cur  new"; "-------"; "bash 5.2 -> 5.3"]))
    = Ok info
    /\ text info = "1"
    /\ printed info = [("text", PStr "1"); ("alt", PStr "updates_available")].
Proof.
  destruct (update_count_skips_two_lines
              ["Package  cur  new"; "-------"; "bash 5.2 -> 5.3"])
    as (info & H & Ht & _ & _ & Hp); [repeat constructor|].
  exists info. split; [exact H|]. split; [exact Ht | exact Hp].
Defined.

(** A line may hold any character that is no line boundary: here an
    arrow (E2 86 92), whose first byte also starts LS and PS. *)
Example plain_arrow :
  plain ("bash 5.2 " +:+ String (Updates.byte 226)
                           (String (Updates.byte 134) (String (Updates.byte 146) " 5.3")))
  = true.
Proof. reflexivity. Qed.

(** An empty output: the count is below zero. *)
Example update_count_of_nothing :
  Updates.main (Completed "")
  = Ok (Output "-2" None (Some "no_updates_available") None).
Proof. reflexivity. Qed.

(** ** mail/main.py *)

Lemma check_folder_adds n f :
  fst (Mail.check_folder n f) = n + folder_unread f /\ 0 <= folder_unread f.
Proof.
  unfold folder_unread, Mail.check_folder.
  destruct (Mail.select f) as [|status data]; cbn; [lia|].
  destruct (negb (String.eqb status "OK")); cbn; [lia|].
  destruct (Mail.search f) as [|status' response]; cbn; [lia|].
  destruct (negb (String.eqb status' "OK")); cbn; [lia|].
  destruct response as [|[b|] response]; cbn; try lia.
  destruct b; cbn; lia.
Qed.

Lemma check_folders_adds n fs :
  fst (Mail.check_folders n fs) = n + fst (Mail.check_folders 0 fs)
  /\ 0 <= fst (Mail.check_folders 0 fs).
Proof.
  revert n. induction fs as [|f fs IH]; intros n; cbn [Mail.check_folders]; [cbn; lia|].
  pose proof (check_folder_adds n f) as [Hn H0].
  pose proof (check_folder_adds 0 f) as [Hn0 _].
  destruct (Mail.check_folder n f) as [m calls].
  destruct (Mail.check_folder 0 f) as [m0 calls0]. cbn [fst] in *.
  pose proof (IH m) as [Hm _]. pose proof (IH m0) as [Hm0 Hpos].
  destruct (Mail.check_folders m fs) as [k c1].
  destruct (Mail.check_folders m0 fs) as [k0 c2]. cbn [fst] in *.
  lia.
Qed.

Lemma check_folders_app n fs1 fs2 :
  fst (Mail.check_folders n (fs1 ++ fs2))
  = fst (Mail.check_folders (fst (Mail.check_folders n fs1)) fs2).
Proof.
  revert n. induction fs1 as [|f fs1 IH]; intros n; [reflexivity|].
  cbn [app Mail.check_folders].
  destruct (Mail.check_folder n f) as [m calls].
  specialize (IH m).
  destruct (Mail.check_folders m (fs1 ++ fs2)) as [k c1].
  destruct (Mail.check_folders m fs1) as [k' c2]. cbn [fst] in *.
  exact IH.
Qed.

Lemma check_mail_account_count c l fs :
  fst (Mail.check_mail_account c l fs)
  = if c && l then fst (Mail.check_folders 0 fs) else 0.
Proof.
  unfold Mail.check_mail_account. destruct c, l; cbn [negb andb fst]; try reflexivity.
  destruct (Mail.check_folders 0 fs); reflexivity.
Qed.

(** X19. [check_mail_account] never counts below zero and gives 0 when
    the connection or the login fails. Otherwise the folders add up: the
    count of two lists of folders one after the other is the sum of
    their counts, and a folder whose [select] or [search] raises or is
    not [OK] adds nothing, wherever it stands among the others. *)
Theorem unread_count_adds_up c l fs1 fs2 f :
  0 <= fst (Mail.check_mail_account c l fs1)
  /\ (c && l = false -> fst (Mail.check_mail_account c l fs1) = 0)
  /\ fst (Mail.check_mail_account true true (fs1 ++ fs2))
     = fst (Mail.check_mail_account true true fs1)
       + fst (Mail.check_mail_account true true fs2)
  /\ (Mail.select f = Mail.Raises
      \/ (exists st data, Mail.select f = Mail.Reply st data /\ st <> "OK")
      \/ Mail.search f = Mail.Raises
      \/ (exists st data, Mail.search f = Mail.Reply st data /\ st <> "OK") ->
      fst (Mail.check_mail_account true true (fs1 ++ f :: fs2))
      = fst (Mail.check_mail_account true true (fs1 ++ fs2))).
Proof.
  rewrite !check_mail_account_count. cbn [andb].
  assert (Happ : forall a b,
             fst (Mail.check_folders 0 (a ++ b))
             = fst (Mail.check_folders 0 a) + fst (Mail.check_folders 0 b)).
  { intros a b. rewrite check_folders_app.
    destruct (check_folders_adds (fst (Mail.check_folders 0 a)) b) as [-> _].
    reflexivity. }
  split; [destruct (c && l); [apply (check_folders_adds 0) | lia]|].
  split; [intros ->; reflexivity|].
  split; [apply Happ|].
  intros Hf. rewrite !Happ. f_equal.
  change (f :: fs2) with ([f] ++ fs2)%list. rewrite Happ.
  assert (folder_unread f = 0) as H0.
  { unfold folder_unread, Mail.check_folder.
    destruct Hf as [-> | [(st & data & -> & Hst) | [Hs | (st & data & Hs & Hst)]]].
    - reflexivity.
    - destruct (String.eqb_spec st "OK"); [contradiction | reflexivity].
    - destruct (Mail.select f) as [|st data]; [reflexivity|].
      destruct (negb (String.eqb st "OK")); [reflexivity|]. rewrite Hs. reflexivity.
    - destruct (Mail.select f) as [|st0 data0]; [reflexivity|].
      destruct (negb (String.eqb st0 "OK")); [reflexivity|]. rewrite Hs.
      destruct (String.eqb_spec st "OK"); [contradiction | reflexivity]. }
  cbn [Mail.check_folders]. fold (folder_unread f).
  destruct (Mail.check_folder 0 f) as [m calls] eqn:E.
  unfold folder_unread in H0. rewrite E in H0. cbn in H0. subst m. cbn. lia.
Qed.

Lemma unread_count_adds_up_witness :
  fst (Mail.check_mail_account true true
         ([Mail.Folder "INBOX" (Mail.Reply "OK" [Some "3"]) (Mail.Reply "OK" [Some "4 7 9"])]
            ++ Mail.Folder "Gone" (Mail.Reply "NO" []) Mail.Raises
            :: [Mail.Folder "Work" (Mail.Reply "OK" [Some "1"]) (Mail.Reply "OK" [Some "2"])]))
  = fst (Mail.check_mail_account true true
           ([Mail.Folder "INBOX" (Mail.Reply "OK" [Some "3"]) (Mail.Reply "OK" [Some "4 7 9"])]
              ++ [Mail.Folder "Work" (Mail.Reply "OK" [Some "1"])
                    (Mail.Reply "OK" [Some "2"])])).
Proof.
  refine (proj2 (proj2 (proj2 (unread_count_adds_up true true _ _
                                 (Mail.Folder "Gone" (Mail.Reply "NO" []) Mail.Raises)))) _).
  right. left. exists "NO", []. split; [reflexivity | discriminate].
Defined.

Example unread_count_example :
  Mail.check_mail_account true true
    [Mail.Folder "INBOX" (Mail.Reply "OK" [Some "3"]) (Mail.Reply "OK" [Some "4 7  9"]);
     Mail.Folder "Gone" (Mail.Reply "NO" []) Mail.Raises;
     Mail.Folder "Empty" (Mail.Reply "OK" [Some "0"]) (Mail.Reply "OK" [Some ""])]
  = (3, [Mail.Connect; Mail.Login; Mail.Select "INBOX"; Mail.Search;
         Mail.Select "Gone"; Mail.Select "Empty"; Mail.Search; Mail.Logout]).
Proof. reflexivity. Qed.

Lemma check_folder_calls n f :
  selected (snd (Mail.check_folder n f)) = [Mail.name f]
  /\ Forall (fun x => x = Mail.Select (Mail.name f) \/ x = Mail.Search)
       (snd (Mail.check_folder n f)).
Proof.
  unfold Mail.check_folder.
  destruct (Mail.select f) as [|status data]; cbn; [split; [reflexivity | auto]|].
  destruct (negb (String.eqb status "OK")); cbn; [split; [reflexivity | auto]|].
  destruct (Mail.search f) as [|status' response]; cbn; [split; [reflexivity | auto]|].
  destruct (negb (String.eqb status' "OK")); cbn; [split; [reflexivity | auto]|].
  destruct response as [|[b|] response]; cbn; split; try reflexivity; auto.
Qed.

Lemma check_folders_calls n fs :
  selected (snd (Mail.check_folders n fs)) = map Mail.name fs
  /\ Forall (fun x => x <> Mail.Connect /\ x <> Mail.Login /\ x <> Mail.Logout)
       (snd (Mail.check_folders n fs)).
Proof.
  revert n. induction fs as [|f fs IH]; intros n; cbn [Mail.check_folders];
    [split; [reflexivity | constructor]|].
  pose proof (check_folder_calls n f) as [Hsel Hall].
  destruct (Mail.check_folder n f) as [m calls]. cbn [snd] in *.
  pose proof (IH m) as [Hsel' Hall'].
  destruct (Mail.check_folders m fs) as [k calls']. cbn [snd] in *.
  split.
  - unfold selected in *. rewrite omap_app, Hsel, Hsel'. reflexivity.
  - apply Forall_app. split; [|exact Hall'].
    eapply Forall_impl; [exact Hall|]. cbn. intros x [-> | ->]; repeat split; discriminate.
Qed.

(** X20. The commands of [check_mail_account]. Without a connection
    nothing follows the attempt. With one, the session always ends with
    a single [logout], also when the login fails. After a login every
    folder of the configuration is selected, in the order of the
    configuration, whatever happened with the folders before it. *)
Theorem every_folder_is_tried c l fs :
  let calls := snd (Mail.check_mail_account c l fs) in
  (c = false -> calls = [Mail.Connect])
  /\ (c = true -> l = false -> calls = [Mail.Connect; Mail.Login; Mail.Logout])
  /\ (c = true -> l = true ->
      exists mid,
        calls = ([Mail.Connect; Mail.Login] ++ mid ++ [Mail.Logout])%list
        /\ (Mail.Logout ∉ mid)
        /\ selected mid = map Mail.name fs).
Proof.
  intros calls. subst calls. unfold Mail.check_mail_account.
  split; [intros ->; reflexivity|]. split; [intros -> ->; reflexivity|].
  intros -> ->. cbn [negb].
  pose proof (check_folders_calls 0 fs) as [Hsel Hall].
  destruct (Mail.check_folders 0 fs) as [n mid]. cbn [snd] in *.
  exists mid. split; [reflexivity|]. split; [|exact Hsel].
  intros Hin. rewrite Forall_forall in Hall.
  destruct (Hall _ Hin) as (_ & _ & H). contradiction.
Qed.

Lemma add_result_fold l t :
  fold_left Mail.add_result l t = t + fold_left Mail.add_result l 0.
Proof.
  revert t. induction l as [|a l IH]; intros t; cbn [fold_left]; [lia|].
  rewrite (IH (Mail.add_result t a)), (IH (Mail.add_result 0 a)).
  destruct a; cbn [Mail.add_result]; lia.
Qed.

Lemma add_result_perm l1 l2 t :
  Permutation l1 l2 ->
  fold_left Mail.add_result l1 t = fold_left Mail.add_result l2 t.
Proof.
  intros H. revert t. induction H as [| a l1 l2 _ IH | a b l | l1 l2 l3 _ IH1 _ IH2];
    intros t; cbn [fold_left].
  - reflexivity.
  - apply IH.
  - f_equal. destruct a, b; cbn [Mail.add_result]; lia.
  - rewrite IH1. apply IH2.
Qed.

(** X21. What [main] of mail/main.py prints does not depend on the
    order in which the checks of the accounts complete. *)
Theorem mail_total_ignores_completion_order l1 l2 :
  Permutation l1 l2 -> Mail.main l1 = Mail.main l2.
Proof.
  intros H. unfold Mail.main.
  destruct l1 as [|a l1].
  - apply Permutation_nil_l in H. subst. reflexivity.
  - destruct l2 as [|b l2]; [apply Permutation_nil_r in H; discriminate|].
    rewrite (add_result_perm _ _ 0 H). reflexivity.
Qed.

Lemma mail_total_ignores_completion_order_witness :
  Mail.main
    [Mail.Account true true
       [Mail.Folder "INBOX" (Mail.Reply "OK" []) (Mail.Reply "OK" [Some "1 2"])];
     Mail.Broken; Mail.Account false false []]
  = Mail.main
      [Mail.Broken; Mail.Account false false [];
       Mail.Account true true
         [Mail.Folder "INBOX" (Mail.Reply "OK" []) (Mail.Reply "OK" [Some "1 2"])]].
Proof.
  apply mail_total_ignores_completion_order.
  apply (Permutation_cons_append [Mail.Broken; Mail.Account false false []]).
Defined.

Lemma account_unread_nonneg a : 0 <= account_unread a.
Proof.
  unfold account_unread. destruct a as [|c l fs]; cbn [Mail.add_result]; [lia|].
  rewrite check_mail_account_count. destruct (c && l); [|lia].
  pose proof (check_folders_adds 0 fs) as [_ H]. lia.
Qed.

Lemma total_positive l :
  0 < fold_left Mail.add_result l 0 <-> exists a, a ∈ l /\ 0 < account_unread a.
Proof.
  induction l as [|a l IH]; cbn [fold_left].
  - split; [lia | intros (a & H & _); inversion H].
  - rewrite add_result_fold. fold (account_unread a).
    pose proof (account_unread_nonneg a) as Ha.
    assert (0 <= fold_left Mail.add_result l 0) as Hl.
    { clear IH. induction l as [|b l IHl]; cbn [fold_left]; [lia|].
      rewrite add_result_fold. fold (account_unread b).
      pose proof (account_unread_nonneg b). lia. }
    split.
    + intros H. destruct (decide (0 < account_unread a)) as [Hpos|Hz].
      * exists a. split; [set_solver | exact Hpos].
      * assert (0 < fold_left Mail.add_result l 0) as H' by lia.
        apply IH in H' as (b & Hb & Hpos). exists b. split; [set_solver | exact Hpos].
    + intros (b & Hb & Hpos). apply elem_of_cons in Hb as [->|Hb]; [lia|].
      assert (0 < fold_left Mail.add_result l 0) by (apply IH; eauto). lia.
Qed.

Lemma total_is_sum l :
  fold_left Mail.add_result l 0 = foldr Z.add 0 (map account_unread l).
Proof.
  induction l as [|a l IH]; cbn [fold_left map foldr]; [reflexivity|].
  rewrite add_result_fold, IH. reflexivity.
Qed.

(** X22. With at least one account configured, [main] of mail/main.py
    reports [unread_mails] exactly when some account whose check went
    through has unread messages, and [caught_up] otherwise; an account
    that cannot be reached, whose login fails or whose check raises
    counts for nothing. The object printed has the keys [text],
    [tooltip] and [alt], the text being the sum of the counts of the
    accounts in decimal. *)
Theorem unread_mails_iff_some_account_has_unread l :
  l <> [] ->
  (alt (Mail.main l) = Some "unread_mails"
   <-> exists a, a ∈ l /\ 0 < account_unread a)
  /\ (alt (Mail.main l) = Some "caught_up"
      <-> forall a, a ∈ l -> account_unread a = 0)
  /\ (let total := foldr Z.add 0 (map account_unread l) in
      0 <= total
      /\ printed (Mail.main l)
         = [("text", PStr (pretty total));
            ("tooltip", PStr ("You have <b>" +:+ pretty total +:+ "</b> unread messages"));
            ("alt", PStr (if Z.ltb 0 total then "unread_mails" else "caught_up"))]).
Proof.
  intros Hne. rewrite <- total_is_sum. unfold Mail.main. destruct l as [|a0 l0]; [contradiction|].
  set (l := a0 :: l0) in *. cbn [alt].
  pose proof (total_positive l) as Hpos.
  assert (0 <= fold_left Mail.add_result l 0) as Hge.
  { clear. induction l as [|b l IHl]; cbn [fold_left]; [lia|].
    rewrite add_result_fold. fold (account_unread b).
    pose proof (account_unread_nonneg b). lia. }
  destruct (Z.ltb_spec 0 (fold_left Mail.add_result l 0)) as [Hlt|Hle].
  - split; [split; [intros _; apply Hpos, Hlt | reflexivity]|].
    split.
    + split; [discriminate|]. intros Hall. apply Hpos in Hlt as (a & Ha & Hp).
      rewrite (Hall a Ha) in Hp. lia.
    + cbv zeta. split; [lia | reflexivity].
  - split; [split; [discriminate | intros H; apply Hpos in H; lia]|].
    split.
    + split; [|reflexivity]. intros _ a Ha.
      pose proof (account_unread_nonneg a).
      destruct (decide (0 < account_unread a)) as [Hp|Hz]; [|lia].
      assert (0 < fold_left Mail.add_result l 0) by (apply Hpos; eauto). lia.
    + cbv zeta. split; [lia | reflexivity].
Qed.

Lemma unread_mails_iff_some_account_has_unread_witness :
  alt (Mail.main [Mail.Account true false []; Mail.Broken]) = Some "caught_up".
Proof.
  refine (proj2 (proj1 (proj2 (unread_mails_iff_some_account_has_unread
                                 [Mail.Account true false []; Mail.Broken] _))) _).
  - discriminate.
  - intros a Ha. apply elem_of_cons in Ha as [->|Ha]; [reflexivity|].
    apply elem_of_cons in Ha as [->|Ha]; [reflexivity | inversion Ha].
Defined.

(** No account configured. *)
Example mail_without_accounts :
  printed (Mail.main [])
  = [("text", PStr "N/A"); ("tooltip", PStr "No mail accounts configured");
     ("alt", PStr "caught_up")].
Proof. reflexivity. Qed.
